(** * DRM GPU: output negotiation, leasing and page-flip timestamps

    A shallow embedding of [DrmGpu] (the second unit of
    [src/effects/taskbarthumbnail/taskbarthumbnail.cpp], upstream
    [drm_gpu.cpp]) together with the properties its specification states.

    Objects owned by the GPU are modelled the way the C++ code holds them:
    vectors of pointers become lists of handles, a handle carries the
    fields that never change after construction (a pipeline's connector
    and CRTC, an output's connector), and the fields the code mutates
    through the pointer live in per-class stores keyed by the object's
    address.  Pointer equality is equality of the identifying field of the
    handle. *)

From stdpp Require Import gmap list.
From Stdlib Require Import ZArith Lia.

Set Default Proof Using "Type".

(** ** Hardware objects *)

(** [DrmPlane::TypeIndex]. *)
Inductive TypeIndex := Primary | Cursor | Overlay.

#[global] Instance TypeIndex_eq_dec : EqDecision TypeIndex.
Proof. solve_decision. Defined.

(** A plane as the GPU sees it: its id, its type, the formats it scans
    out, the bit mask of CRTC indices it can be attached to and the
    current value of its CRTC_ID property.  [drm_object_plane.h] is not
    part of the sources; the fields are the accessors [DrmGpu] calls. *)
Record DrmPlane := mkPlane {
  plane_id : Z;
  plane_type : TypeIndex;
  plane_formats : list Z;
  plane_possibleCrtcs : Z;
  plane_crtcIdProp : Z
}.

(** [DrmPlane::isCrtcSupported(int crtc)]: bit [crtc] of the mask. *)
Definition isCrtcSupported (p : DrmPlane) (crtc : nat) : bool :=
  Z.testbit (plane_possibleCrtcs p) (Z.of_nat crtc).

(** A CRTC: kernel id, index in the resource array ([pipeIndex]) and the
    id of the primary plane bound at discovery.  One object is created per
    index, so the index identifies the object. *)
Record DrmCrtc := mkCrtc {
  crtc_id : Z;
  crtc_pipeIndex : nat;
  crtc_primaryPlane : option Z
}.

(** A connector: kernel id plus the properties [DrmGpu] reads. *)
Record DrmConnector := mkConnector {
  conn_id : Z;
  conn_isConnected : bool;
  conn_encoders : list Z;
  conn_isNonDesktop : bool;
  conn_crtcIdProp : Z
}.

(** A pipeline handle: address of the object and its fixed binding. *)
Record DrmPipeline := mkPipeline {
  pl_addr : nat;
  pl_connector : DrmConnector;
  pl_crtc : DrmCrtc
}.

(** An output handle: address and the connector it was created for. *)
Record DrmOutput := mkOutput {
  out_addr : nat;
  out_connector : DrmConnector
}.

(** Mutable part of a pipeline ([setOutput], [setActive]). *)
Record PipelineState := mkPipelineState {
  ps_output : option DrmOutput;
  ps_active : bool
}.

(** Mutable part of a desktop output. *)
Record OutputState := mkOutputState {
  os_pipeline : option DrmPipeline;
  os_enabled : bool;
  os_dpmsOn : bool
}.

(** A lease request ([KWaylandServer::DrmLeaseV1Interface]): the address
    of the request object, the connector objects it names and, once
    granted, the kernel's lessee id. *)
Record Lease := mkLease {
  lease_request : nat;
  lease_connectors : list nat;
  lease_lesseeId : Z
}.

(** Mutable part of a lease output: its pipeline and its lease, if any. *)
Record LeaseOutputState := mkLeaseOutputState {
  lo_pipeline : DrmPipeline;
  lo_lease : option Lease
}.

#[global] Instance DrmCrtc_eq_dec : EqDecision DrmCrtc.
Proof. solve_decision. Defined.

#[global] Instance DrmConnector_eq_dec : EqDecision DrmConnector.
Proof. solve_decision. Defined.

#[global] Instance DrmPipeline_eq_dec : EqDecision DrmPipeline.
Proof. solve_decision. Defined.

(** Pointer equality on handles. *)
Definition same_plane (a b : DrmPlane) : bool := (plane_id a =? plane_id b)%Z.
Definition same_crtc (a b : DrmCrtc) : bool := Nat.eqb (crtc_pipeIndex a) (crtc_pipeIndex b).
Definition same_connector (a b : DrmConnector) : bool := (conn_id a =? conn_id b)%Z.
Definition same_pipeline (a b : DrmPipeline) : bool := Nat.eqb (pl_addr a) (pl_addr b).
Definition same_output (a b : DrmOutput) : bool := Nat.eqb (out_addr a) (out_addr b).

(** ** Qt container operations *)

(** [QVector::removeOne]: drop the first element equal to [x]. *)
Fixpoint removeOne {A} (same : A -> A -> bool) (x : A) (l : list A) : list A :=
  match l with
  | [] => []
  | y :: l' => if same x y then l' else y :: removeOne same x l'
  end.

(** [QVector::contains]. *)
Definition contains {A} (same : A -> A -> bool) (x : A) (l : list A) : bool :=
  existsb (same x) l.

(** [std::find_if] returning the element, [None] for [end()]. *)
Fixpoint find_if {A} (p : A -> bool) (l : list A) : option A :=
  match l with
  | [] => None
  | y :: l' => if p y then Some y else find_if p l'
  end.

(** [QVector::isEmpty]. *)
Definition isEmpty {A} (l : list A) : bool :=
  match l with [] => true | _ => false end.

(** ** Signals and calls that leave the GPU object *)

Inductive Signal :=
| outputEnabled (o : DrmOutput)
| outputDisabled (o : option DrmOutput)
| outputAdded (o : DrmOutput)
| outputRemoved (o : DrmOutput)
| leaseDenied (request : nat)
| leaseGranted (request : nat) (fd : Z) (lessee : Z)
| createLease (objects : list Z)
| revokeLease (lessee : Z)
| setDrmMaster (b : bool)
| setSoftwareCursorForced.

(** ** The GPU object *)

Record DrmGpu := mkGpu {
  m_fd : Z;
  m_presentationClock : Z;
  m_atomicModeSetting : bool;
  m_planes : list DrmPlane;
  m_crtcs : list DrmCrtc;
  m_connectors : list DrmConnector;
  m_pipelines : list DrmPipeline;
  m_outputs : list DrmOutput;
  m_drmOutputs : list DrmOutput;
  m_leaseOutputs : list nat;
  (* stores of the objects the vectors point to *)
  pipelineObjs : gmap nat PipelineState;
  outputObjs : gmap nat OutputState;
  leaseOutputObjs : gmap nat LeaseOutputState;
  (* allocator: the next unused address *)
  nextAddr : nat;
  (* test commits handed to the kernel, most recent first *)
  testCommits : list (list DrmPipeline);
  (* signals emitted and outgoing calls, most recent first *)
  emitted : list Signal
}.

(** ** Pixel formats ([drm_fourcc.h]) *)

Definition fourcc_code (a b c d : Z) : Z :=
  Z.lor (Z.lor a (Z.shiftl b 8)) (Z.lor (Z.shiftl c 16) (Z.shiftl d 24)).

(* 'X' 'R' '2' '4' and 'A' 'R' '2' '4' *)
Definition DRM_FORMAT_XRGB8888 : Z := fourcc_code 88 82 50 52.
Definition DRM_FORMAT_ARGB8888 : Z := fourcc_code 65 82 50 52.

(** [QVector<uint32_t>::contains]. *)
Definition formats_contains (fs : list Z) (f : Z) : bool :=
  existsb (Z.eqb f) fs.

(** The loop of [DrmGpu::isFormatSupported] in atomic mode: the first
    primary plane lacking the format makes the answer [false]. *)
Fixpoint allPrimaryPlanesSupport (planes : list DrmPlane) (drmFormat : Z) : bool :=
  match planes with
  | [] => true
  | plane :: rest =>
      if bool_decide (plane_type plane = Primary)
         && negb (formats_contains (plane_formats plane) drmFormat)
      then false
      else allPrimaryPlanesSupport rest drmFormat
  end.

(** [DrmGpu::isFormatSupported]. *)
Definition isFormatSupported (gpu : DrmGpu) (drmFormat : Z) : bool :=
  if negb (m_atomicModeSetting gpu) then
    (drmFormat =? DRM_FORMAT_XRGB8888)%Z || (drmFormat =? DRM_FORMAT_ARGB8888)%Z
  else allPrimaryPlanesSupport (m_planes gpu) drmFormat.

(** ** Resource discovery *)

(** What the kernel answers during [DrmGpu::initDrmResources]. *)
Record KernelResources := mkKernelResources {
  (* drmSetClientCap(fd, DRM_CLIENT_CAP_ATOMIC, 1) == 0 *)
  k_atomicCap : bool;
  (* drmModeGetPlaneResources; per plane the object built by a successful
     DrmPlane::init, [None] when init fails *)
  k_planeResources : option (list (option DrmPlane));
  (* drmModeGetResources: the CRTC ids, each with the result of
     DrmCrtc::init *)
  k_crtcs : option (list (Z * bool))
}.

(** The plane-creation loop: planes whose [init] succeeds are appended. *)
Fixpoint createPlanes (kplanes : list (option DrmPlane)) (planes : list DrmPlane)
  : list DrmPlane :=
  match kplanes with
  | [] => planes
  | Some p :: rest => createPlanes rest (planes ++ [p])
  | None :: rest => createPlanes rest planes
  end.

(** The inner loop over the unused planes for CRTC index [i] with kernel
    id [crtcId]: the last supported primary plane seen wins, and the scan
    stops at one that is already bound to this CRTC. *)
Fixpoint findPrimaryPlane (planes : list DrmPlane) (i : nat) (crtcId : Z)
    (primary : option DrmPlane) : option DrmPlane :=
  match planes with
  | [] => primary
  | plane :: rest =>
      if bool_decide (plane_type plane = Primary) && isCrtcSupported plane i then
        if (plane_crtcIdProp plane =? crtcId)%Z then Some plane
        else findPrimaryPlane rest i crtcId (Some plane)
      else findPrimaryPlane rest i crtcId primary
  end.

(** The loop over [resources->crtcs], from index [i] on. *)
Fixpoint discoverCrtcs (atomic : bool) (i : nat) (kcrtcs : list (Z * bool))
    (planes : list DrmPlane) (crtcs : list DrmCrtc) : list DrmCrtc :=
  match kcrtcs with
  | [] => crtcs
  | (crtcId, initOk) :: rest =>
      let primary := findPrimaryPlane planes i crtcId None in
      if atomic && negb (bool_decide (is_Some primary)) then
        (* "Could not find a suitable primary plane for crtc": continue *)
        discoverCrtcs atomic (S i) rest planes crtcs
      else
        let planes' :=
          match primary with
          | Some p => removeOne same_plane p planes
          | None => planes
          end in
        if initOk then
          discoverCrtcs atomic (S i) rest planes'
            (crtcs ++ [mkCrtc crtcId i (plane_id <$> primary)])
        else discoverCrtcs atomic (S i) rest planes' crtcs
  end.

Definition set_planes_atomic (gpu : DrmGpu) (planes : list DrmPlane) (atomic : bool) : DrmGpu :=
  mkGpu (m_fd gpu) (m_presentationClock gpu) atomic planes (m_crtcs gpu)
    (m_connectors gpu) (m_pipelines gpu) (m_outputs gpu) (m_drmOutputs gpu)
    (m_leaseOutputs gpu) (pipelineObjs gpu) (outputObjs gpu) (leaseOutputObjs gpu)
    (nextAddr gpu) (testCommits gpu) (emitted gpu).

Definition set_crtcs (gpu : DrmGpu) (crtcs : list DrmCrtc) : DrmGpu :=
  mkGpu (m_fd gpu) (m_presentationClock gpu) (m_atomicModeSetting gpu) (m_planes gpu)
    crtcs (m_connectors gpu) (m_pipelines gpu) (m_outputs gpu) (m_drmOutputs gpu)
    (m_leaseOutputs gpu) (pipelineObjs gpu) (outputObjs gpu) (leaseOutputObjs gpu)
    (nextAddr gpu) (testCommits gpu) (emitted gpu).

(** [DrmGpu::initDrmResources]. *)
Definition initDrmResources (k : KernelResources) (gpu : DrmGpu) : DrmGpu :=
  let gpu1 :=
    if k_atomicCap k then
      match k_planeResources k with
      | Some kplanes =>
          let planes := createPlanes kplanes (m_planes gpu) in
          if isEmpty planes then set_planes_atomic gpu planes false
          else set_planes_atomic gpu planes true
      | None => set_planes_atomic gpu (m_planes gpu) false
      end
    else set_planes_atomic gpu (m_planes gpu) false in
  match k_crtcs k with
  | None => gpu1
  | Some kcrtcs =>
      set_crtcs gpu1
        (discoverCrtcs (m_atomicModeSetting gpu1) 0 kcrtcs (m_planes gpu1) (m_crtcs gpu1))
  end.

Definition CLOCK_REALTIME : Z := 0.
Definition CLOCK_MONOTONIC : Z := 1.

(** The constructor, as far as it sets fields modelled here.
    [monotonicCap] is the pair (return value, capability) of
    drmGetCap(DRM_CAP_TIMESTAMP_MONOTONIC); [noAms] tells whether
    KWIN_DRM_NO_AMS is set. *)
Definition DrmGpu_new (fd : Z) (monotonicCap : Z * Z) (noAms : bool)
    (k : KernelResources) : DrmGpu :=
  let clock :=
    if (fst monotonicCap =? 0)%Z && (snd monotonicCap =? 1)%Z
    then CLOCK_MONOTONIC else CLOCK_REALTIME in
  let gpu := mkGpu fd clock false [] [] [] [] [] [] [] ∅ ∅ ∅ 1 [] [] in
  if negb noAms then initDrmResources k gpu else gpu.

(** ** Field updates *)

Definition set_connectors (v : list DrmConnector) (gpu : DrmGpu) : DrmGpu :=
  mkGpu (m_fd gpu) (m_presentationClock gpu) (m_atomicModeSetting gpu) (m_planes gpu) (m_crtcs gpu) v (m_pipelines gpu) (m_outputs gpu) (m_drmOutputs gpu) (m_leaseOutputs gpu) (pipelineObjs gpu) (outputObjs gpu) (leaseOutputObjs gpu) (nextAddr gpu) (testCommits gpu) (emitted gpu).

Definition set_pipelines (v : list DrmPipeline) (gpu : DrmGpu) : DrmGpu :=
  mkGpu (m_fd gpu) (m_presentationClock gpu) (m_atomicModeSetting gpu) (m_planes gpu) (m_crtcs gpu) (m_connectors gpu) v (m_outputs gpu) (m_drmOutputs gpu) (m_leaseOutputs gpu) (pipelineObjs gpu) (outputObjs gpu) (leaseOutputObjs gpu) (nextAddr gpu) (testCommits gpu) (emitted gpu).

Definition set_outputs (v : list DrmOutput) (gpu : DrmGpu) : DrmGpu :=
  mkGpu (m_fd gpu) (m_presentationClock gpu) (m_atomicModeSetting gpu) (m_planes gpu) (m_crtcs gpu) (m_connectors gpu) (m_pipelines gpu) v (m_drmOutputs gpu) (m_leaseOutputs gpu) (pipelineObjs gpu) (outputObjs gpu) (leaseOutputObjs gpu) (nextAddr gpu) (testCommits gpu) (emitted gpu).

Definition set_drmOutputs (v : list DrmOutput) (gpu : DrmGpu) : DrmGpu :=
  mkGpu (m_fd gpu) (m_presentationClock gpu) (m_atomicModeSetting gpu) (m_planes gpu) (m_crtcs gpu) (m_connectors gpu) (m_pipelines gpu) (m_outputs gpu) v (m_leaseOutputs gpu) (pipelineObjs gpu) (outputObjs gpu) (leaseOutputObjs gpu) (nextAddr gpu) (testCommits gpu) (emitted gpu).

Definition set_leaseOutputs (v : list nat) (gpu : DrmGpu) : DrmGpu :=
  mkGpu (m_fd gpu) (m_presentationClock gpu) (m_atomicModeSetting gpu) (m_planes gpu) (m_crtcs gpu) (m_connectors gpu) (m_pipelines gpu) (m_outputs gpu) (m_drmOutputs gpu) v (pipelineObjs gpu) (outputObjs gpu) (leaseOutputObjs gpu) (nextAddr gpu) (testCommits gpu) (emitted gpu).

Definition set_pipelineObjs (v : gmap nat PipelineState) (gpu : DrmGpu) : DrmGpu :=
  mkGpu (m_fd gpu) (m_presentationClock gpu) (m_atomicModeSetting gpu) (m_planes gpu) (m_crtcs gpu) (m_connectors gpu) (m_pipelines gpu) (m_outputs gpu) (m_drmOutputs gpu) (m_leaseOutputs gpu) v (outputObjs gpu) (leaseOutputObjs gpu) (nextAddr gpu) (testCommits gpu) (emitted gpu).

Definition set_outputObjs (v : gmap nat OutputState) (gpu : DrmGpu) : DrmGpu :=
  mkGpu (m_fd gpu) (m_presentationClock gpu) (m_atomicModeSetting gpu) (m_planes gpu) (m_crtcs gpu) (m_connectors gpu) (m_pipelines gpu) (m_outputs gpu) (m_drmOutputs gpu) (m_leaseOutputs gpu) (pipelineObjs gpu) v (leaseOutputObjs gpu) (nextAddr gpu) (testCommits gpu) (emitted gpu).

Definition set_leaseOutputObjs (v : gmap nat LeaseOutputState) (gpu : DrmGpu) : DrmGpu :=
  mkGpu (m_fd gpu) (m_presentationClock gpu) (m_atomicModeSetting gpu) (m_planes gpu) (m_crtcs gpu) (m_connectors gpu) (m_pipelines gpu) (m_outputs gpu) (m_drmOutputs gpu) (m_leaseOutputs gpu) (pipelineObjs gpu) (outputObjs gpu) v (nextAddr gpu) (testCommits gpu) (emitted gpu).

Definition set_nextAddr (v : nat) (gpu : DrmGpu) : DrmGpu :=
  mkGpu (m_fd gpu) (m_presentationClock gpu) (m_atomicModeSetting gpu) (m_planes gpu) (m_crtcs gpu) (m_connectors gpu) (m_pipelines gpu) (m_outputs gpu) (m_drmOutputs gpu) (m_leaseOutputs gpu) (pipelineObjs gpu) (outputObjs gpu) (leaseOutputObjs gpu) v (testCommits gpu) (emitted gpu).

Definition set_testCommits (v : list (list DrmPipeline)) (gpu : DrmGpu) : DrmGpu :=
  mkGpu (m_fd gpu) (m_presentationClock gpu) (m_atomicModeSetting gpu) (m_planes gpu) (m_crtcs gpu) (m_connectors gpu) (m_pipelines gpu) (m_outputs gpu) (m_drmOutputs gpu) (m_leaseOutputs gpu) (pipelineObjs gpu) (outputObjs gpu) (leaseOutputObjs gpu) (nextAddr gpu) v (emitted gpu).

Definition set_emitted (v : list Signal) (gpu : DrmGpu) : DrmGpu :=
  mkGpu (m_fd gpu) (m_presentationClock gpu) (m_atomicModeSetting gpu) (m_planes gpu) (m_crtcs gpu) (m_connectors gpu) (m_pipelines gpu) (m_outputs gpu) (m_drmOutputs gpu) (m_leaseOutputs gpu) (pipelineObjs gpu) (outputObjs gpu) (leaseOutputObjs gpu) (nextAddr gpu) (testCommits gpu) v.

(** ** Threading the GPU object through the member functions *)

Definition M (A : Type) : Type := DrmGpu -> A * DrmGpu.

Definition ret {A} (a : A) : M A := fun gpu => (a, gpu).

Definition bind {A B} (c : M A) (k : A -> M B) : M B :=
  fun gpu => let (a, gpu') := c gpu in k a gpu'.

Definition get : M DrmGpu := fun gpu => (gpu, gpu).

Definition modify (f : DrmGpu -> DrmGpu) : M unit := fun gpu => (tt, f gpu).

Notation "'let*' x ':=' c 'in' k" := (bind c (fun x => k))
  (at level 10, x name, c at level 100, k at level 200, only parsing).
Notation "c ;> k" := (bind c (fun _ => k))
  (at level 100, k at level 200, right associativity, only parsing).

(** A [for] loop whose body only has effects. *)
Fixpoint forEach {A} (body : A -> M unit) (l : list A) : M unit :=
  match l with
  | [] => ret tt
  | x :: rest => body x ;> forEach body rest
  end.

Definition emit (s : Signal) : M unit :=
  modify (fun gpu => set_emitted (s :: emitted gpu) gpu).

(** ** Pipelines and outputs as objects *)

(** [new DrmPipeline(gpu, connector, crtc)]: a fresh object, attached to
    no output. *)
Definition newPipeline (connector : DrmConnector) (crtc : DrmCrtc) : M DrmPipeline :=
  fun gpu =>
    let a := nextAddr gpu in
    (mkPipeline a connector crtc,
     set_nextAddr (S a)
       (set_pipelineObjs (<[a := mkPipelineState None true]> (pipelineObjs gpu)) gpu)).

(** [delete pipeline]. *)
Definition deletePipeline (p : DrmPipeline) : M unit :=
  modify (fun gpu => set_pipelineObjs (delete (pl_addr p) (pipelineObjs gpu)) gpu).

(** [pipeline->output()]. *)
Definition pipeline_output (gpu : DrmGpu) (p : DrmPipeline) : option DrmOutput :=
  match pipelineObjs gpu !! pl_addr p with
  | Some ps => ps_output ps
  | None => None
  end.

(** [pipeline->setOutput(output)]. *)
Definition pipeline_setOutput (p : DrmPipeline) (o : option DrmOutput) : M unit :=
  modify (fun gpu =>
    set_pipelineObjs
      (alter (fun ps => mkPipelineState o (ps_active ps)) (pl_addr p) (pipelineObjs gpu)) gpu).

(** [pipeline->setActive(b)]. *)
Definition pipeline_setActive (p : DrmPipeline) (b : bool) : M unit :=
  modify (fun gpu =>
    set_pipelineObjs
      (alter (fun ps => mkPipelineState (ps_output ps) b) (pl_addr p) (pipelineObjs gpu)) gpu).

(** [output->pipeline()]. *)
Definition output_pipeline (gpu : DrmGpu) (o : DrmOutput) : option DrmPipeline :=
  match outputObjs gpu !! out_addr o with
  | Some os => os_pipeline os
  | None => None
  end.

(** [output->isEnabled()]; an output that is gone counts as disabled. *)
Definition output_isEnabled (gpu : DrmGpu) (o : DrmOutput) : bool :=
  match outputObjs gpu !! out_addr o with
  | Some os => os_enabled os
  | None => false
  end.

(** [output->setPipeline(pipeline)]. *)
Definition output_setPipeline (o : DrmOutput) (p : option DrmPipeline) : M unit :=
  modify (fun gpu =>
    set_outputObjs
      (alter (fun os => mkOutputState p (os_enabled os) (os_dpmsOn os))
             (out_addr o) (outputObjs gpu)) gpu).

(** [new DrmOutput(gpu, pipeline)].  The constructor is not part of the
    sources; as [commitCombination] and [updateOutputs] read
    [pipeline->output()] right after it, it is taken to attach the two
    objects to each other, the new output being enabled and powered on. *)
Definition newOutput (p : DrmPipeline) : M DrmOutput :=
  fun gpu =>
    let a := nextAddr gpu in
    let o := mkOutput a (pl_connector p) in
    (o, snd (pipeline_setOutput p (Some o)
      (set_nextAddr (S a)
         (set_outputObjs (<[a := mkOutputState (Some p) true true]> (outputObjs gpu)) gpu)))).

(** [delete output]. *)
Definition deleteOutput (o : DrmOutput) : M unit :=
  modify (fun gpu => set_outputObjs (delete (out_addr o) (outputObjs gpu)) gpu).

(** [DrmGpu::findOutput]. *)
Definition findOutput (gpu : DrmGpu) (connector : Z) : option DrmOutput :=
  find_if (fun o => (conn_id (out_connector o) =? connector)%Z) (m_drmOutputs gpu).

(** ** [std::sort]

    libstdc++ sorts a range of at most sixteen elements by insertion sort
    alone ([std::__insertion_sort]); a GPU has fewer CRTCs and connectors
    than that.  The comparator is kept as a parameter, because the one
    [findWorkingCombination] passes is not a strict weak ordering and the
    outcome is then whatever this procedure computes. *)

(** [std::__unguarded_linear_insert]: [before] holds the elements to the
    left of the hole, nearest first; [after] those already shifted right. *)
Fixpoint unguarded_linear_insert {A} (comp : A -> A -> bool) (val : A)
    (before after : list A) : list A :=
  match before with
  | [] => val :: after
  | next :: rest =>
      if comp val next then unguarded_linear_insert comp val rest (next :: after)
      else rev before ++ val :: after
  end.

(** The loop of [std::__insertion_sort] over the elements [todo] that
    follow the sorted prefix. *)
Fixpoint insertion_sort_loop {A} (comp : A -> A -> bool) (sorted todo : list A) : list A :=
  match todo with
  | [] => sorted
  | x :: rest =>
      let sorted' :=
        match sorted with
        | [] => [x]
        | first :: _ =>
            if comp x first then x :: sorted
            else unguarded_linear_insert comp x (rev sorted) []
        end in
      insertion_sort_loop comp sorted' rest
  end.

Definition std_sort {A} (comp : A -> A -> bool) (l : list A) : list A :=
  insertion_sort_loop comp [] l.

(** ** The negotiation search *)

(** The driver's verdict on a test commit
    ([DrmPipeline::commitPipelines(pipelines, CommitMode::Test)]); it may
    depend on everything the GPU object holds at that moment. *)
Definition CommitTest : Type := DrmGpu -> list DrmPipeline -> bool.

(** [m_outputs.contains(pipeline->output())]; a null output is in no
    vector. *)
Definition outputs_contains (gpu : DrmGpu) (o : option DrmOutput) : bool :=
  match o with
  | Some o' => contains same_output o' (m_outputs gpu)
  | None => false
  end.

(** The first loop of [commitCombination]: every pipeline is attached to
    the output of its connector, a desktop connector without output
    getting a new one. *)
Definition setupCombination (pipelines : list DrmPipeline) : M unit :=
  forEach (fun pipeline =>
    let* gpu := get in
    match findOutput gpu (conn_id (pl_connector pipeline)) with
    | Some output =>
        output_setPipeline output (Some pipeline) ;>
        pipeline_setOutput pipeline (Some output)
    | None =>
        if negb (conn_isNonDesktop (pl_connector pipeline)) then
          let* output := newOutput pipeline in
          emit (outputEnabled output)
        else ret tt
    end) pipelines.

(** The loop of [commitCombination] after a refused test: outputs that
    were created for the test are disabled and deleted. *)
Definition discardTestOutputs (pipelines : list DrmPipeline) : M unit :=
  forEach (fun pipeline =>
    let* gpu := get in
    let output := pipeline_output gpu pipeline in
    if negb (outputs_contains gpu output) then
      emit (outputDisabled output) ;>
      match output with
      | Some o => deleteOutput o
      | None => ret tt
      end
    else ret tt) pipelines.

(** [DrmGpu::commitCombination]; the test commit is logged in
    [testCommits]. *)
Definition commitCombination (commitTest : CommitTest) (pipelines : list DrmPipeline)
  : M bool :=
  setupCombination pipelines ;>
  let* gpu := get in
  modify (set_testCommits (pipelines :: testCommits gpu)) ;>
  if commitTest gpu pipelines then ret true
  else
    discardTestOutputs pipelines ;>
    ret false.

(** The two nested [for] loops of [findWorkingCombination]: the first
    attempt that yields a non-empty vector is returned at once. *)
Fixpoint firstWorking {A} (attempt : A -> M (list DrmPipeline)) (l : list A)
  : M (list DrmPipeline) :=
  match l with
  | [] => ret []
  | x :: rest =>
      let* workingPipelines := attempt x in
      if negb (isEmpty workingPipelines) then ret workingPipelines
      else firstWorking attempt rest
  end.

(** The comparator of the CRTC sort: "is [c1] the CRTC this connector is
    already connected to". *)
Definition crtcHintFirst (connector : DrmConnector) (c1 c2 : DrmCrtc) : bool :=
  (conn_crtcIdProp connector =? crtc_id c1)%Z.

(** The lambda [recurse] of [findWorkingCombination]; [search] stands for
    the recursive call on the connectors that are left. *)
Definition recurse (search : list DrmPipeline -> list DrmCrtc -> M (list DrmPipeline))
    (connector : DrmConnector) (crtcs : list DrmCrtc) (pipelines : list DrmPipeline)
    (crtc : DrmCrtc) : M (list DrmPipeline) :=
  let* pipeline := newPipeline connector crtc in
  let crtcsLeft := removeOne same_crtc crtc crtcs in
  let allPipelines := pipelines ++ [pipeline] in
  let* r := search allPipelines crtcsLeft in
  (if isEmpty r then deletePipeline pipeline else ret tt) ;>
  ret r.

(** The end of the recursion: "no further pipelines can be added -> test
    configuration". *)
Definition testConfiguration (commitTest : CommitTest) (pipelines : list DrmPipeline)
  : M (list DrmPipeline) :=
  if isEmpty pipelines then ret pipelines
  else
    let* ok := commitCombination commitTest pipelines in
    if ok then ret pipelines else ret [].

(** The CRTC order [findWorkingCombination] tries for a connector. *)
Definition crtcOrder (atomic : bool) (connector : DrmConnector) (crtcs : list DrmCrtc)
  : list DrmCrtc :=
  if atomic then std_sort (crtcHintFirst connector) crtcs else crtcs.

(** [DrmGpu::findWorkingCombination]. *)
Fixpoint findWorkingCombination (commitTest : CommitTest) (pipelines : list DrmPipeline)
    (connectors : list DrmConnector) (crtcs : list DrmCrtc) {struct connectors}
  : M (list DrmPipeline) :=
  match connectors with
  | [] => testConfiguration commitTest pipelines
  | connector :: connectorsLeft =>
      if isEmpty crtcs then testConfiguration commitTest pipelines
      else
        let* gpu := get in
        let crtcs' := crtcOrder (m_atomicModeSetting gpu) connector crtcs in
        firstWorking
          (fun _ =>
             firstWorking
               (recurse (fun allPipelines crtcsLeft =>
                           findWorkingCombination commitTest allPipelines
                             connectorsLeft crtcsLeft)
                        connector crtcs' pipelines)
               crtcs')
          (conn_encoders connector)
  end.

(** ** Removing outputs *)

(** [DrmGpu::removeOutput]. *)
Definition removeOutput (output : DrmOutput) : M unit :=
  modify (fun gpu => set_drmOutputs (removeOne same_output output (m_drmOutputs gpu)) gpu) ;>
  modify (fun gpu => set_outputs (removeOne same_output output (m_outputs gpu)) gpu) ;>
  emit (outputRemoved output) ;>
  let* gpu := get in
  let pipeline := output_pipeline gpu output in
  deleteOutput output ;>
  match pipeline with
  | Some p =>
      modify (fun gpu => set_pipelines (removeOne same_pipeline p (m_pipelines gpu)) gpu) ;>
      deletePipeline p
  | None => ret tt
  end.

(** [leaseOutput->pipeline()] and [leaseOutput->lease()]. *)
Definition leaseOutput_pipeline (gpu : DrmGpu) (o : nat) : option DrmPipeline :=
  lo_pipeline <$> leaseOutputObjs gpu !! o.

Definition leaseOutput_lease (gpu : DrmGpu) (o : nat) : option Lease :=
  match leaseOutputObjs gpu !! o with
  | Some lo => lo_lease lo
  | None => None
  end.

(** [DrmGpu::findLeaseOutput]. *)
Definition findLeaseOutput (gpu : DrmGpu) (connector : Z) : option nat :=
  find_if (fun o =>
             match leaseOutput_pipeline gpu o with
             | Some p => (conn_id (pl_connector p) =? connector)%Z
             | None => false
             end) (m_leaseOutputs gpu).

(** [DrmGpu::removeLeaseOutput]. *)
Definition removeLeaseOutput (output : nat) : M unit :=
  modify (fun gpu => set_leaseOutputs (removeOne Nat.eqb output (m_leaseOutputs gpu)) gpu) ;>
  let* gpu := get in
  let pipeline := leaseOutput_pipeline gpu output in
  modify (fun gpu => set_leaseOutputObjs (delete output (leaseOutputObjs gpu)) gpu) ;>
  match pipeline with
  | Some p =>
      modify (fun gpu => set_pipelines (removeOne same_pipeline p (m_pipelines gpu)) gpu) ;>
      deletePipeline p
  | None => ret tt
  end.

(** ** Leases *)

(** [DrmLeaseOutput::leased(lease)] and [DrmLeaseOutput::leaseEnded()]:
    [drm_lease_output.cpp] is not part of the sources; they set and clear
    the lease the output reports through [lease()]. *)
Definition leaseOutput_setLease (o : nat) (l : option Lease) : M unit :=
  modify (fun gpu =>
    set_leaseOutputObjs
      (alter (fun lo => mkLeaseOutputState (lo_pipeline lo) l) o (leaseOutputObjs gpu)) gpu).

(** Modelled from the spec: [DrmLeaseOutput::addLeaseObjects], missing from
    the sources, "collects the underlying hardware object ids (connector,
    CRTC, plane)" of the output's pipeline. *)
Definition addLeaseObjects (p : DrmPipeline) (objects : list Z) : list Z :=
  objects ++ [conn_id (pl_connector p); crtc_id (pl_crtc p)]
          ++ match crtc_primaryPlane (pl_crtc p) with
             | Some plane => [plane]
             | None => []
             end.

(** The kernel's answer to [drmModeCreateLease] for a list of object ids:
    the lease fd and lessee id, or [None] for a negative fd. *)
Definition CreateLease : Type := list Z -> option (Z * Z).

(** The first loop of [handleLeaseRequest]: the requested connectors that
    are unleased lease outputs of this GPU, with their objects. *)
Fixpoint collectLeaseObjects (gpu : DrmGpu) (conns : list nat)
    (objects : list Z) (outputs : list nat) : list Z * list nat :=
  match conns with
  | [] => (objects, outputs)
  | output :: rest =>
      if contains Nat.eqb output (m_leaseOutputs gpu)
         && negb (bool_decide (is_Some (leaseOutput_lease gpu output)))
      then
        match leaseOutput_pipeline gpu output with
        | Some p => collectLeaseObjects gpu rest (addLeaseObjects p objects) (outputs ++ [output])
        | None => collectLeaseObjects gpu rest objects (outputs ++ [output])
        end
      else collectLeaseObjects gpu rest objects outputs
  end.

(** [DrmGpu::handleLeaseRequest]. *)
Definition handleLeaseRequest (createLeaseK : CreateLease) (request : nat)
    (conns : list nat) : M unit :=
  let* gpu := get in
  let '(objects, outputs) := collectLeaseObjects gpu conns [] [] in
  emit (createLease objects) ;>
  match createLeaseK objects with
  | None => emit (leaseDenied request)
  | Some (fd, lesseeId) =>
      emit (leaseGranted request fd lesseeId) ;>
      forEach (fun output =>
                 leaseOutput_setLease output (Some (mkLease request conns lesseeId)))
              outputs
  end.

(** [DrmGpu::handleLeaseRevoked]. *)
Definition handleLeaseRevoked (lease : Lease) : M unit :=
  forEach (fun output =>
             let* gpu := get in
             if contains Nat.eqb output (m_leaseOutputs gpu)
             then leaseOutput_setLease output None
             else ret tt) (lease_connectors lease) ;>
  emit (revokeLease (lease_lesseeId lease)).

(** ** Refreshing the outputs *)

(** What the kernel and the outputs answer during [DrmGpu::updateOutputs]. *)
Record KernelRefresh := mkKernelRefresh {
  (* drmModeGetResources: the connector ids, [None] on failure *)
  kr_connectors : option (list Z);
  (* drmModeListLessees *)
  kr_lessees : list Z;
  (* the connector object that DrmConnector::init, or updateProperties on
     an existing object, leaves for a kernel id; [None] when init fails *)
  kr_probe : Z -> option DrmConnector;
  (* DrmOutput::initCursor *)
  kr_initCursor : DrmOutput -> bool
}.

(** The connector object a handle points to: the live object of that id
    in [m_connectors], the handle's own copy when it is gone. *)
Definition connector_of (gpu : DrmGpu) (c : DrmConnector) : DrmConnector :=
  default c (find_if (same_connector c) (m_connectors gpu)).

(** The lessee reconciliation at the head of [updateOutputs].
    Modelled from the spec: [DrmLeaseV1Interface::deny], missing from the
    sources, ends the lease the way a revocation does ("marks the
    LeaseOutput unleased and releases the corresponding kernel lease"). *)
Definition denyStaleLeases (lessees : list Z) : M unit :=
  let* gpu0 := get in
  forEach (fun leaseOutput =>
    let* gpu := get in
    match leaseOutput_lease gpu leaseOutput with
    | Some lease =>
        if negb (existsb (Z.eqb (lease_lesseeId lease)) lessees) then
          emit (leaseDenied (lease_request lease)) ;>
          handleLeaseRevoked lease
        else ret tt
    | None => ret tt
    end) (m_leaseOutputs gpu0).

(** Replace the object of id [conn_id c'] in a connector vector: the
    effect of [updateProperties] on the object the vector points to. *)
Definition updateConnector (c' : DrmConnector) (l : list DrmConnector) : list DrmConnector :=
  map (fun c => if same_connector c' c then c' else c) l.

(** The loop over [resources->connectors]: new connectors are appended
    when they initialise and are connected, known ones are re-read and
    struck from [removedConnectors] when still connected. *)
Fixpoint scanConnectors (probe : Z -> option DrmConnector) (ids : list Z)
    (connectors removedConnectors : list DrmConnector)
  : list DrmConnector * list DrmConnector :=
  match ids with
  | [] => (connectors, removedConnectors)
  | currentConnector :: rest =>
      match find_if (fun c => (conn_id c =? currentConnector)%Z) connectors with
      | None =>
          match probe currentConnector with
          | Some c =>
              let c := mkConnector currentConnector (conn_isConnected c) (conn_encoders c)
                         (conn_isNonDesktop c) (conn_crtcIdProp c) in
              if conn_isConnected c
              then scanConnectors probe rest (connectors ++ [c]) removedConnectors
              else scanConnectors probe rest connectors removedConnectors
          | None => scanConnectors probe rest connectors removedConnectors
          end
      | Some old =>
          let c :=
            match probe currentConnector with
            | Some c => mkConnector currentConnector (conn_isConnected c) (conn_encoders c)
                          (conn_isNonDesktop c) (conn_crtcIdProp c)
            | None => old
            end in
          scanConnectors probe rest (updateConnector c connectors)
            (if conn_isConnected c
             then removeOne same_connector c removedConnectors
             else updateConnector c removedConnectors)
      end
  end.

(** Tear down what hangs on a connector that disappeared. *)
Definition dropConnector (connector : DrmConnector) : M unit :=
  let* gpu := get in
  match findOutput gpu (conn_id connector) with
  | Some output => removeOutput output
  | None =>
      match findLeaseOutput gpu (conn_id connector) with
      | Some leaseOutput => removeLeaseOutput leaseOutput
      | None => ret tt
      end
  end ;>
  modify (fun gpu => set_connectors (removeOne same_connector connector (m_connectors gpu)) gpu).

(** "find unused and connected connectors". *)
Fixpoint collectConnected (conns : list DrmConnector) (connected : list DrmConnector)
  : M (list DrmConnector) :=
  match conns with
  | [] => ret connected
  | conn :: rest =>
      let* gpu := get in
      let output := findOutput gpu (conn_id conn) in
      if conn_isConnected conn then collectConnected rest (connected ++ [conn])
      else
        match output with
        | Some o => removeOutput o
        | None =>
            match findLeaseOutput gpu (conn_id conn) with
            | Some leaseOutput => removeLeaseOutput leaseOutput
            | None => ret tt
            end
        end ;>
        collectConnected rest connected
  end.

(** [QMap<DrmOutput*, DrmPipeline*>::insert]: entries are kept in key
    (address) order and an existing key gets the new value. *)
Fixpoint qmap_insert (key : DrmOutput) (value : option DrmPipeline)
    (m : list (DrmOutput * option DrmPipeline)) : list (DrmOutput * option DrmPipeline) :=
  match m with
  | [] => [(key, value)]
  | (k, v) :: rest =>
      if Nat.ltb (out_addr key) (out_addr k) then (key, value) :: (k, v) :: rest
      else if Nat.eqb (out_addr key) (out_addr k) then (key, value) :: rest
      else (k, v) :: qmap_insert key value rest
  end.

(** [m_pipelines.removeOne(p)] for a possibly null [p]. *)
Definition pipelines_removeOne (p : option DrmPipeline) : M unit :=
  match p with
  | Some p' =>
      modify (fun gpu => set_pipelines (removeOne same_pipeline p' (m_pipelines gpu)) gpu)
  | None => ret tt
  end.

(** "stash away current pipelines of active outputs". *)
Fixpoint stashPipelines (outputs : list DrmOutput)
    (oldPipelines : list (DrmOutput * option DrmPipeline))
  : M (list (DrmOutput * option DrmPipeline)) :=
  match outputs with
  | [] => ret oldPipelines
  | output :: rest =>
      let* gpu := get in
      (if negb (output_isEnabled gpu output) then emit (outputEnabled output) else ret tt) ;>
      let pipeline := output_pipeline gpu output in
      pipelines_removeOne pipeline ;>
      output_setPipeline output None ;>
      stashPipelines rest (qmap_insert output pipeline oldPipelines)
  end.

(** The comparator of the connector sort: connectors bound to a CRTC
    (non-zero CRTC_ID) come first. *)
Definition boundFirst (c1 c2 : DrmConnector) : bool :=
  (conn_crtcIdProp c1 >? conn_crtcIdProp c2)%Z.

(** "don't touch resources that are leased": the connectors and CRTCs of
    leased outputs leave the search lists, the pipelines of unleased lease
    outputs leave [m_pipelines]. *)
Fixpoint excludeLeased (leaseOutputs : list nat) (connectors : list DrmConnector)
    (crtcs : list DrmCrtc) : M (list DrmConnector * list DrmCrtc) :=
  match leaseOutputs with
  | [] => ret (connectors, crtcs)
  | output :: rest =>
      let* gpu := get in
      match leaseOutput_lease gpu output with
      | Some _ =>
          match leaseOutput_pipeline gpu output with
          | Some p =>
              excludeLeased rest (removeOne same_connector (pl_connector p) connectors)
                (removeOne same_crtc (pl_crtc p) crtcs)
          | None => excludeLeased rest connectors crtcs
          end
      | None =>
          pipelines_removeOne (leaseOutput_pipeline gpu output) ;>
          excludeLeased rest connectors crtcs
      end
  end.

(** The rollback loop over [oldPipelines]: each stashed pipeline gets its
    output back and joins [config].  The loop calls [setOutput] on every
    stashed pointer without a test: on a null pointer, or on a pipeline
    that has been deleted, the behaviour of the C++ code is undefined; the
    loop then stops with [None]. *)
Fixpoint restoreOldPipelines (oldPipelines : list (DrmOutput * option DrmPipeline))
    (config : list DrmPipeline) : M (option (list DrmPipeline)) :=
  match oldPipelines with
  | [] => ret (Some config)
  | (output, Some pipeline) :: rest =>
      let* gpu := get in
      if bool_decide (is_Some (pipelineObjs gpu !! pl_addr pipeline)) then
        pipeline_setOutput pipeline (Some output) ;>
        restoreOldPipelines rest (config ++ [pipeline])
      else ret None
  | (_, None) :: rest => ret None
  end.

(** The pipelines of the lease outputs that hold no lease. *)
Definition unleasedPipelines (gpu : DrmGpu) : list DrmPipeline :=
  omap (fun o =>
          match leaseOutput_lease gpu o with
          | Some _ => None
          | None => leaseOutput_pipeline gpu o
          end) (m_leaseOutputs gpu).

(** The search and what follows it up to [m_pipelines << config];
    [None] when the rollback loop runs into undefined behaviour. *)
Definition negotiate (commitTest : CommitTest)
    (oldPipelines : list (DrmOutput * option DrmPipeline))
    (connectors : list DrmConnector) (crtcs : list DrmCrtc)
  : M (option (list DrmPipeline)) :=
  let* found := findWorkingCombination commitTest [] connectors crtcs in
  let* config :=
    if isEmpty found && negb (isEmpty connectors) then
      let* restored := restoreOldPipelines oldPipelines found in
      match restored with
      | Some restored =>
          let* gpu := get in
          ret (Some (restored ++ unleasedPipelines gpu))
      | None => ret None
      end
    else
      forEach (fun entry =>
                 match snd entry with
                 | Some p => deletePipeline p
                 | None => ret tt
                 end) oldPipelines ;>
      ret (Some found) in
  match config with
  | Some config =>
      modify (fun gpu => set_pipelines (m_pipelines gpu ++ config) gpu) ;>
      ret (Some config)
  | None => ret None
  end.

(** [new DrmLeaseOutput(pipeline, leaseDevice)]: a lease output around the
    pipeline, holding no lease yet. *)
Definition newLeaseOutput (p : DrmPipeline) : M nat :=
  fun gpu =>
    let a := nextAddr gpu in
    (a, set_nextAddr (S a)
          (set_leaseOutputObjs (<[a := mkLeaseOutputState p None]> (leaseOutputObjs gpu)) gpu)).

(** [leaseOutput->setPipeline(pipeline)]. *)
Definition leaseOutput_setPipeline (o : nat) (p : DrmPipeline) : M unit :=
  modify (fun gpu =>
    set_leaseOutputObjs
      (alter (fun lo => mkLeaseOutputState p (lo_lease lo)) o (leaseOutputObjs gpu)) gpu).

(** [output->dpmsMode() == DpmsMode::On]. *)
Definition output_dpmsOn (gpu : DrmGpu) (o : DrmOutput) : bool :=
  match outputObjs gpu !! out_addr o with
  | Some os => os_dpmsOn os
  | None => false
  end.

(** The body of the loop that turns the accepted pipelines into outputs.
    (A desktop pipeline without output would be a null dereference in the
    C++ code; [commitCombination] gives every such pipeline an output.) *)
Definition adoptPipeline (initCursor : DrmOutput -> bool) (pipeline : DrmPipeline) : M unit :=
  let* gpu := get in
  let output := pipeline_output gpu pipeline in
  if conn_isNonDesktop (connector_of gpu (pl_connector pipeline)) then
    match findLeaseOutput gpu (conn_id (pl_connector pipeline)) with
    | Some leaseOutput => leaseOutput_setPipeline leaseOutput pipeline
    | None =>
        let* leaseOutput := newLeaseOutput pipeline in
        modify (fun gpu => set_leaseOutputs (m_leaseOutputs gpu ++ [leaseOutput]) gpu)
    end ;>
    pipeline_setActive pipeline false
  else
    match output with
    | Some o =>
        if contains same_output o (m_outputs gpu) then
          if output_isEnabled gpu o then
            if negb (output_dpmsOn gpu o) then pipeline_setActive pipeline false
            else ret tt
          else
            pipeline_setActive pipeline false ;>
            emit (outputDisabled (Some o))
        else
          (if negb (initCursor o) then emit setSoftwareCursorForced else ret tt) ;>
          modify (fun gpu => set_outputs (m_outputs gpu ++ [o]) gpu) ;>
          modify (fun gpu => set_drmOutputs (m_drmOutputs gpu ++ [o]) gpu) ;>
          emit (outputAdded o)
    | None => ret tt
    end.

(** [DrmGpu::updateOutputs] from the connector scan up to the moment the
    search lists are final: the connectors are reconciled with the kernel's
    list and the outputs of vanished connectors are torn down. *)
Definition reconcileConnectors (k : KernelRefresh) (ids : list Z) : M (list DrmConnector) :=
  denyStaleLeases (kr_lessees k) ;>
  let* gpu := get in
  let '(connectors, removedConnectors) :=
    scanConnectors (kr_probe k) ids (m_connectors gpu) (m_connectors gpu) in
  modify (set_connectors connectors) ;>
  forEach dropConnector removedConnectors ;>
  let* gpu := get in
  collectConnected (m_connectors gpu) [].

(** [DrmGpu::updateOutputs] from "stash away current pipelines" up to the
    call of the search: the stashed pipelines and the search lists. *)
Definition prepareSearch (connectedConnectors : list DrmConnector)
  : M (list (DrmOutput * option DrmPipeline) * list DrmConnector * list DrmCrtc) :=
  let* gpu := get in
  let* oldPipelines := stashPipelines (m_drmOutputs gpu) [] in
  let* gpu := get in
  let connectedConnectors :=
    if m_atomicModeSetting gpu then std_sort boundFirst connectedConnectors
    else connectedConnectors in
  let* lists := excludeLeased (m_leaseOutputs gpu) connectedConnectors (m_crtcs gpu) in
  ret (oldPipelines, fst lists, snd lists).

(** [DrmGpu::updateOutputs] from "stash away current pipelines" up to
    [m_pipelines << config]. *)
Definition renegotiate (commitTest : CommitTest) (connectedConnectors : list DrmConnector)
  : M (option (list DrmPipeline)) :=
  let* prepared := prepareSearch connectedConnectors in
  negotiate commitTest (fst (fst prepared)) (snd (fst prepared)) (snd prepared).

(** [DrmGpu::updateOutputs].  [waitIdle], the re-reading of CRTC and
    plane properties and [updateModes] act on page-flip and mode state
    that is not part of this model.  The result is the returned [bool];
    [None] when the rollback ran into undefined behaviour, the GPU object
    being left as it was at that point. *)
Definition updateOutputs (commitTest : CommitTest) (k : KernelRefresh) : M (option bool) :=
  match kr_connectors k with
  | None => ret (Some false)
  | Some ids =>
      let* connectedConnectors := reconcileConnectors k ids in
      let* config := renegotiate commitTest connectedConnectors in
      match config with
      | Some config =>
          forEach (adoptPipeline (kr_initCursor k)) (rev config) ;>
          emit (setDrmMaster true) ;>
          ret (Some true)
      | None => ret None
      end
  end.

(** ** Page-flip timestamps *)

Record timespec := mkTimespec {
  tv_sec : Z;
  tv_nsec : Z
}.

(** [std::chrono::nanoseconds] counts in a signed 64-bit integer; the
    two's-complement value of an exact result. *)
Definition wrap64 (z : Z) : Z := ((z + 2 ^ 63) mod 2 ^ 64 - 2 ^ 63)%Z.

(** [unsigned int] arithmetic. *)
Definition wrap32u (z : Z) : Z := (z mod 2 ^ 32)%Z.

(** [convertTimestamp(const timespec &)]: seconds, as nanoseconds, plus
    nanoseconds. *)
Definition convertTimespec (timestamp : timespec) : Z :=
  wrap64 (wrap64 (tv_sec timestamp * 1000000000) + tv_nsec timestamp).

(** [convertTimestamp(sourceClock, targetClock, timestamp)].  The clocks
    are read through [clock_gettime]; the result comes with the list of
    clocks that were sampled, in order. *)
Definition convertTimestamp (clock_gettime : Z -> timespec)
    (sourceClock targetClock : Z) (timestamp : timespec) : Z * list Z :=
  if (sourceClock =? targetClock)%Z then (convertTimespec timestamp, [])
  else
    let sourceCurrentTime := clock_gettime sourceClock in
    let targetCurrentTime := clock_gettime targetClock in
    let delta := wrap64 (convertTimespec sourceCurrentTime - convertTimespec timestamp) in
    (wrap64 (convertTimespec targetCurrentTime - delta), [sourceClock; targetClock]).

(** What the page-flip handler does to the output it is called for. *)
Inductive FlipEffect :=
| invalidTimestampLogged (sec usec : Z)
| pageFlipped (output : DrmOutput)
| notifyFrameCompleted (output : DrmOutput) (timestamp : Z).

(** [DrmBackend::findGpuByFd]. *)
Definition findGpuByFd (gpus : list DrmGpu) (fd : Z) : option DrmGpu :=
  find_if (fun gpu => (m_fd gpu =? fd)%Z) gpus.

(** [pageFlipHandler].  [backend] is the platform when it is a
    [DrmBackend] (its GPUs), [steady_now] the reading of
    [std::chrono::steady_clock], [gpuOf] the GPU an output names as its
    own ([output->gpu()]); [sec] and [usec] are [unsigned int], [time_t]
    and [long] are 64 bits wide. *)
Definition pageFlipHandler (backend : option (list DrmGpu))
    (clock_gettime : Z -> timespec) (steady_now : Z) (gpuOf : DrmOutput -> DrmGpu)
    (fd frame sec usec : Z) (data : DrmOutput) : list FlipEffect :=
  match backend with
  | None => []
  | Some gpus =>
      match findGpuByFd gpus fd with
      | None => []
      | Some gpu =>
          if negb (contains same_output data (m_outputs gpu)) then []
          else
            let output := data in
            let timestamp :=
              fst (convertTimestamp clock_gettime
                     (m_presentationClock (gpuOf output)) CLOCK_MONOTONIC
                     (mkTimespec sec (wrap32u (usec * 1000)))) in
            if (timestamp =? 0)%Z then
              [invalidTimestampLogged sec usec;
               pageFlipped output;
               notifyFrameCompleted output steady_now]
            else
              [pageFlipped output; notifyFrameCompleted output timestamp]
      end
  end.

(** ** The life of a GPU object

    The member functions that run on a constructed GPU. *)
Inductive GpuCall :=
| CallUpdateOutputs (commitTest : CommitTest) (k : KernelRefresh)
| CallHandleLeaseRequest (createLeaseK : CreateLease) (request : nat) (conns : list nat)
| CallHandleLeaseRevoked (lease : Lease)
| CallRemoveOutput (output : DrmOutput)
| CallRemoveLeaseOutput (output : nat).

Definition runCall (c : GpuCall) (gpu : DrmGpu) : DrmGpu :=
  match c with
  | CallUpdateOutputs commitTest k => snd (updateOutputs commitTest k gpu)
  | CallHandleLeaseRequest createLeaseK request conns =>
      snd (handleLeaseRequest createLeaseK request conns gpu)
  | CallHandleLeaseRevoked lease => snd (handleLeaseRevoked lease gpu)
  | CallRemoveOutput output => snd (removeOutput output gpu)
  | CallRemoveLeaseOutput output => snd (removeLeaseOutput output gpu)
  end.

(** The GPU after a sequence of calls, first call first. *)
Definition runCalls (cs : list GpuCall) (gpu : DrmGpu) : DrmGpu :=
  fold_left (fun g c => runCall c g) cs gpu.

(** ** Example devices *)

(** An empty GPU on fd 3 that reports the monotonic clock. *)
Definition gpu0 : DrmGpu :=
  DrmGpu_new 3 (0, 1)%Z true (mkKernelResources false None None).

Definition connA : DrmConnector := mkConnector 31 true [41%Z] false 51.
Definition connB : DrmConnector := mkConnector 32 true [42%Z] false 0.
Definition crtc1 : DrmCrtc := mkCrtc 51 0 (Some 61%Z).
Definition crtc2 : DrmCrtc := mkCrtc 52 1 (Some 62%Z).

Definition outA : DrmOutput := mkOutput 100 connA.

(** [gpu0] with one desktop output. *)
Definition gpu_oneOutput : DrmGpu :=
  set_outputObjs (<[100 := mkOutputState None true true]> ∅)
    (set_drmOutputs [outA] (set_outputs [outA] (set_nextAddr 101 gpu0))).

(** A kernel that grants the atomic capability and exposes one primary
    plane, usable on CRTC index 0 only, and two CRTCs. *)
Definition planeP : DrmPlane := mkPlane 61 Primary [DRM_FORMAT_XRGB8888] 1 0.

Definition kernel_onePrimary : KernelResources :=
  mkKernelResources true (Some [Some planeP]) (Some [(51, true); (52, true)]%Z).

(** ** Vocabulary of the properties *)

(** [assigned new connectors crtcs]: the pipelines [new] bind the leading
    connectors of [connectors], in order, each to a CRTC drawn from what
    is left of the pool [crtcs] (the pool may be reordered before a draw,
    the drawn CRTC leaves it). *)
Inductive assigned : list DrmPipeline -> list DrmConnector -> list DrmCrtc -> Prop :=
| assigned_nil connectors crtcs : assigned [] connectors crtcs
| assigned_cons p new connector connectors crtcs crtcs' :
    pl_connector p = connector ->
    crtcs' ≡ₚ crtcs ->
    pl_crtc p ∈ crtcs' ->
    assigned new connectors (removeOne same_crtc (pl_crtc p) crtcs') ->
    assigned (p :: new) (connector :: connectors) crtcs.

(** [gpu0] in atomic mode with two CRTCs. *)
Definition gpu_atomic : DrmGpu :=
  set_planes_atomic (set_crtcs gpu0 [crtc1; crtc2]) [] true.

(** A driver that refuses every configuration driving connector 31 from
    CRTC 51 and accepts all others. *)
Definition rejectA1 : CommitTest := fun _ pipelines =>
  negb (existsb (fun p => (conn_id (pl_connector p) =? 31)%Z
                          && (crtc_id (pl_crtc p) =? 51)%Z) pipelines).

(** Drivers that accept, respectively refuse, everything. *)
Definition acceptAll : CommitTest := fun _ _ => true.
Definition rejectAll : CommitTest := fun _ _ => false.

(** A non-desktop connector (a headset) on CRTC 52, held by a lease
    output at address 200 whose pipeline lives at address 201. *)
Definition connV : DrmConnector := mkConnector 33 true [43%Z] true 52.
Definition pipeV : DrmPipeline := mkPipeline 201 connV crtc2.
Definition leaseV : Lease := mkLease 300 [200] 7.

(** [gpu_atomic] with that lease output, leased or not. *)
Definition gpu_withLeaseOutput (lease : option Lease) : DrmGpu :=
  set_nextAddr 202
    (set_pipelineObjs (<[201 := mkPipelineState None false]> ∅)
       (set_leaseOutputObjs (<[200 := mkLeaseOutputState pipeV lease]> ∅)
          (set_leaseOutputs [200]
             (set_pipelines [pipeV]
                (set_connectors [connA; connV] gpu_atomic))))).

Definition gpu_leased : DrmGpu := gpu_withLeaseOutput (Some leaseV).
Definition gpu_unleased : DrmGpu := gpu_withLeaseOutput None.

(** A pipeline object exists at address [a]. *)
Definition live (gpu : DrmGpu) (a : nat) : Prop := is_Some (pipelineObjs gpu !! a).

(** The allocator has not handed out an address it still holds: every
    pipeline object lies below [nextAddr]. *)
Definition fresh (gpu : DrmGpu) : Prop := forall a, live gpu a -> a < nextAddr gpu.

(** Run the attempts of [l] one after the other as long as each comes
    back empty; the GPU after the last one, [None] if one succeeded. *)
Fixpoint allFail {A} (attempt : A -> M (list DrmPipeline)) (l : list A) (gpu : DrmGpu)
  : option DrmGpu :=
  match l with
  | [] => Some gpu
  | x :: rest =>
      let (w, gpu') := attempt x gpu in
      if isEmpty w then allFail attempt rest gpu' else None
  end.

(** What a search leaves behind, relative to the GPU it started from:
    an empty result leaves the pipeline objects as they were, a non-empty
    one extends the accumulated pipelines by new ones, which are the only
    pipeline objects added. *)
Definition searchPost (pipelines : list DrmPipeline) (gpu : DrmGpu)
    (r : list DrmPipeline) (gpu' : DrmGpu) : Prop :=
  nextAddr gpu <= nextAddr gpu'
  /\ ((r = [] /\ forall a, live gpu' a <-> live gpu a)
      \/ (r <> []
          /\ exists new,
               r = pipelines ++ new
               /\ (forall a, live gpu' a <-> live gpu a \/ a ∈ map pl_addr new)
               /\ (forall a, a ∈ map pl_addr new -> nextAddr gpu <= a < nextAddr gpu'))).

(** The attempts of one level of the search, in the order of the two
    nested loops: for every encoder, every CRTC of the (reordered) pool. *)
Definition attemptOrder (connector : DrmConnector) (crtcs : list DrmCrtc) : list DrmCrtc :=
  concat (map (fun _ => crtcs) (conn_encoders connector)).

(** From [gpu] to [gpu'] the allocator only moved forward and the same
    pipeline objects exist. *)
Definition grows (gpu gpu' : DrmGpu) : Prop :=
  nextAddr gpu <= nextAddr gpu' /\ forall a, live gpu' a <-> live gpu a.

Definition growing {A} (c : M A) : Prop := forall gpu, grows gpu (snd (c gpu)).

(** A requested connector the grant acts on: a lease output of this GPU
    that holds no lease. *)
Definition eligibleForLease (gpu : DrmGpu) (o : nat) : bool :=
  contains Nat.eqb o (m_leaseOutputs gpu)
  && negb (bool_decide (is_Some (leaseOutput_lease gpu o))).

(** The hardware objects of a list of lease outputs, in order. *)
Definition leaseObjectsOf (gpu : DrmGpu) (outputs : list nat) (objects : list Z) : list Z :=
  fold_left (fun acc o =>
               match leaseOutput_pipeline gpu o with
               | Some p => addLeaseObjects p acc
               | None => acc
               end) outputs objects.

(** A second lease output, on connector 34 and CRTC 51, at address 210. *)
Definition connW : DrmConnector := mkConnector 34 true [44%Z] true 51.
Definition pipeW : DrmPipeline := mkPipeline 211 connW crtc1.

Definition gpu_twoLeaseOutputs : DrmGpu :=
  set_nextAddr 212
    (set_pipelineObjs (<[211 := mkPipelineState None false]> (pipelineObjs gpu_leased))
       (set_leaseOutputObjs
          (<[210 := mkLeaseOutputState pipeW None]> (leaseOutputObjs gpu_leased))
          (set_leaseOutputs [200; 210]
             (set_pipelines [pipeV; pipeW]
                (set_connectors [connA; connV; connW] gpu_leased))))).

(** A kernel that leases any non-empty list of objects. *)
Definition leaseNonEmpty : CreateLease := fun objects =>
  if isEmpty objects then None else Some (9, 8)%Z.

(** [removeOne] for each element of [l] in turn. *)
Definition removeAll {A} (same : A -> A -> bool) (l : list A) (from : list A) : list A :=
  fold_left (fun acc x => removeOne same x acc) l from.

(** The pipelines the desktop outputs hold. *)
Definition outputPipelines (gpu : DrmGpu) : list DrmPipeline :=
  omap (output_pipeline gpu) (m_drmOutputs gpu).



(** Two desktop outputs: connector 31 on CRTC 51 and connector 32 on
    CRTC 52, each with its pipeline. *)
Definition pipeA : DrmPipeline := mkPipeline 101 connA crtc1.
Definition connB' : DrmConnector := mkConnector 32 true [42%Z] false 52.
Definition outB : DrmOutput := mkOutput 102 connB'.
Definition pipeB : DrmPipeline := mkPipeline 103 connB' crtc2.

Definition gpu_twoOutputs : DrmGpu :=
  set_nextAddr 104
    (set_pipelineObjs
       (<[101 := mkPipelineState (Some outA) true]>
          (<[103 := mkPipelineState (Some outB) true]> ∅))
       (set_outputObjs
          (<[100 := mkOutputState (Some pipeA) true true]>
             (<[102 := mkOutputState (Some pipeB) true true]> ∅))
          (set_drmOutputs [outA; outB]
             (set_outputs [outA; outB]
                (set_pipelines [pipeA; pipeB]
                   (set_connectors [connA; connB'] gpu_atomic)))))).

(** The kernel's view at a refresh: the connectors it lists, all of them
    connected with their properties unchanged. *)
Definition probeConnected (id : Z) : option DrmConnector :=
  if (id =? 31)%Z then Some connA
  else if (id =? 32)%Z then Some connB'
  else None.

Definition refresh_bothPresent : KernelRefresh :=
  mkKernelRefresh (Some [31; 32]%Z) [] probeConnected (fun _ => true).


(** A member function [c] leaves an observation [f] of the GPU alone. *)
Definition preserves {A B} (f : DrmGpu -> B) (c : M A) : Prop :=
  forall gpu, f (snd (c gpu)) = f gpu.

(** A range that holds a CRTC of the id a connector hints at has such a
    CRTC in front. *)
Definition hintedInFront (connector : DrmConnector) (l : list DrmCrtc) : Prop :=
  (exists x, x ∈ l /\ crtc_id x = conn_crtcIdProp connector) ->
  exists first others, l = first :: others /\ crtc_id first = conn_crtcIdProp connector.


(** Every pipeline that a desktop output or a lease output holds. *)
Definition heldPipelines (gpu : DrmGpu) : list DrmPipeline :=
  outputPipelines gpu ++ omap (leaseOutput_pipeline gpu) (m_leaseOutputs gpu).

(** The state a refresh can roll back to: nothing is listed twice, every
    desktop output holds a pipeline, the pipelines held by the outputs and
    lease outputs are distinct, exist and are in [m_pipelines], and the
    allocator is sound. *)
Record outputsAttached (gpu : DrmGpu) : Prop := mkOutputsAttached {
  oa_pipelines : NoDup (map pl_addr (m_pipelines gpu));
  oa_outputs : NoDup (map out_addr (m_drmOutputs gpu));
  oa_leaseOutputs : NoDup (m_leaseOutputs gpu);
  oa_holds : forall o, o ∈ m_drmOutputs gpu -> is_Some (output_pipeline gpu o);
  oa_held : NoDup (map pl_addr (heldPipelines gpu));
  oa_listed : forall p, p ∈ heldPipelines gpu -> p ∈ m_pipelines gpu /\ live gpu (pl_addr p);
  oa_fresh : fresh gpu
}.

(** Two states in which the outputs and lease outputs hold the same
    pipelines. *)
Definition sameHolding (g1 g2 : DrmGpu) : Prop :=
  m_pipelines g1 = m_pipelines g2
  /\ m_drmOutputs g1 = m_drmOutputs g2
  /\ m_leaseOutputs g1 = m_leaseOutputs g2
  /\ outputObjs g1 = outputObjs g2
  /\ pipelineObjs g1 = pipelineObjs g2
  /\ nextAddr g1 = nextAddr g2
  /\ forall o, leaseOutput_pipeline g1 o = leaseOutput_pipeline g2 o.


(** Connectors that report no encoder: the search returns at once, with
    no test commit. *)
Definition probeNoEncoder (id : Z) : option DrmConnector :=
  if (id =? 31)%Z then Some (mkConnector 31 true [] false 51)
  else if (id =? 32)%Z then Some (mkConnector 32 true [] false 52)
  else None.

Definition refresh_noEncoder : KernelRefresh :=
  mkKernelRefresh (Some [31; 32]%Z) [] probeNoEncoder (fun _ => true).

(** A kernel with a primary plane for each of two CRTCs, the GPU object
    constructed on it, and that GPU after a first refresh in which the
    driver accepts the two connectors. *)
Definition planeQ : DrmPlane := mkPlane 62 Primary [DRM_FORMAT_XRGB8888] 2 0.

Definition kernel_twoPrimary : KernelResources :=
  mkKernelResources true (Some [Some planeP; Some planeQ])
    (Some [(51, true); (52, true)]%Z).

Definition gpu_started : DrmGpu := DrmGpu_new 3 (0, 1)%Z false kernel_twoPrimary.

Definition gpu_running : DrmGpu :=
  snd (updateOutputs acceptAll refresh_bothPresent gpu_started).

(** * Properties *)

(** ** Containers *)

Lemma existsb_Zeqb_elem_of (f : Z) (fs : list Z) :
  existsb (Z.eqb f) fs = true <-> f ∈ fs.
Proof.
  induction fs as [|x fs IH]; simpl.
  - split; [discriminate | intros H; inversion H].
  - rewrite orb_true_iff, IH, elem_of_cons, Z.eqb_eq. tauto.
Qed.

(** ** Pixel formats *)

Lemma allPrimaryPlanesSupport_spec (planes : list DrmPlane) (f : Z) :
  allPrimaryPlanesSupport planes f = true <->
  (forall p, p ∈ planes -> plane_type p = Primary -> f ∈ plane_formats p).
Proof.
  induction planes as [|q planes IH]; simpl.
  - split; [intros _ p Hp; inversion Hp | reflexivity].
  - destruct (bool_decide (plane_type q = Primary)) eqn:Ety; simpl.
    + apply bool_decide_eq_true in Ety.
      destruct (formats_contains (plane_formats q) f) eqn:Ef; simpl.
      * apply existsb_Zeqb_elem_of in Ef. rewrite IH. split.
        -- intros H p Hp Hty. apply elem_of_cons in Hp as [-> | Hp]; auto.
        -- intros H p Hp. apply H. now apply elem_of_cons; right.
      * split; [discriminate |]. intros H.
        assert (f ∈ plane_formats q) as Hin by (apply H; [apply elem_of_cons; now left | easy]).
        apply existsb_Zeqb_elem_of in Hin. unfold formats_contains in Ef. congruence.
    + apply bool_decide_eq_false in Ety. rewrite IH. split.
      * intros H p Hp Hty. apply elem_of_cons in Hp as [-> | Hp]; [contradiction | auto].
      * intros H p Hp. apply H. now apply elem_of_cons; right.
Qed.

(** C10: in legacy mode [isFormatSupported] answers true exactly for
    XRGB8888 and ARGB8888; in atomic mode exactly when every primary
    plane of the GPU lists the format, so a GPU without primary planes
    supports every format. *)
Theorem isFormatSupported_spec (gpu : DrmGpu) (drmFormat : Z) :
  (isFormatSupported gpu drmFormat = true <->
   if m_atomicModeSetting gpu
   then forall p, p ∈ m_planes gpu -> plane_type p = Primary -> drmFormat ∈ plane_formats p
   else drmFormat = DRM_FORMAT_XRGB8888 \/ drmFormat = DRM_FORMAT_ARGB8888)
  /\ (m_atomicModeSetting gpu = true ->
      (forall p, p ∈ m_planes gpu -> plane_type p <> Primary) ->
      isFormatSupported gpu drmFormat = true).
Proof.
  assert (isFormatSupported gpu drmFormat = true <->
   if m_atomicModeSetting gpu
   then forall p, p ∈ m_planes gpu -> plane_type p = Primary -> drmFormat ∈ plane_formats p
   else drmFormat = DRM_FORMAT_XRGB8888 \/ drmFormat = DRM_FORMAT_ARGB8888) as Hmain.
  { unfold isFormatSupported. destruct (m_atomicModeSetting gpu); simpl.
    - apply allPrimaryPlanesSupport_spec.
    - rewrite orb_true_iff, !Z.eqb_eq. tauto. }
  split; [exact Hmain |].
  intros Hatomic Hnone. apply Hmain. rewrite Hatomic.
  intros p Hp Hty. exfalso. exact (Hnone p Hp Hty).
Qed.

(** ** Timestamps *)

Lemma wrap64_id (z : Z) : (- 2 ^ 63 <= z < 2 ^ 63)%Z -> wrap64 z = z.
Proof.
  intros H. unfold wrap64. rewrite Z.mod_small; lia.
Qed.

(** C8: converting a timestamp between identical clocks samples no clock
    and yields seconds * 10^9 + nanoseconds, for every timestamp whose
    value in nanoseconds fits the 64-bit count of
    [std::chrono::nanoseconds]. *)
Theorem convertTimestamp_same_clock (clock_gettime : Z -> timespec) (clock sec nsec : Z) :
  (- 2 ^ 63 <= sec * 1000000000 < 2 ^ 63)%Z ->
  (- 2 ^ 63 <= sec * 1000000000 + nsec < 2 ^ 63)%Z ->
  convertTimestamp clock_gettime clock clock (mkTimespec sec nsec)
  = ((sec * 1000000000 + nsec)%Z, []).
Proof.
  intros Hsec Hsum. unfold convertTimestamp. rewrite Z.eqb_refl.
  unfold convertTimespec. simpl. rewrite (wrap64_id _ Hsec), (wrap64_id _ Hsum).
  reflexivity.
Qed.

Lemma convertTimestamp_same_clock_witness :
  convertTimestamp (fun _ => mkTimespec 7 7) CLOCK_MONOTONIC CLOCK_MONOTONIC
    (mkTimespec 1700000000 250000000)
  = (1700000000250000000%Z, []).
Proof.
  apply (convertTimestamp_same_clock (fun _ => mkTimespec 7 7) CLOCK_MONOTONIC
           1700000000 250000000); lia.
Defined.

(** C9: when the handler reaches the conversion (the platform is a DRM
    backend, the fd names a GPU and that GPU still lists the output) and
    the converted timestamp is zero, the steady-clock time takes its place
    and the output is still told of the flip and its render loop of the
    completed frame. *)
Theorem pageFlipHandler_zero_timestamp (gpus : list DrmGpu) (gpu : DrmGpu)
    (clock_gettime : Z -> timespec) (steady_now : Z) (gpuOf : DrmOutput -> DrmGpu)
    (fd frame sec usec : Z) (output : DrmOutput) :
  findGpuByFd gpus fd = Some gpu ->
  contains same_output output (m_outputs gpu) = true ->
  fst (convertTimestamp clock_gettime (m_presentationClock (gpuOf output)) CLOCK_MONOTONIC
         (mkTimespec sec (wrap32u (usec * 1000)))) = 0%Z ->
  pageFlipHandler (Some gpus) clock_gettime steady_now gpuOf fd frame sec usec output
  = [invalidTimestampLogged sec usec; pageFlipped output;
     notifyFrameCompleted output steady_now].
Proof.
  intros Hgpu Hout Hzero. unfold pageFlipHandler.
  rewrite Hgpu, Hout. simpl. rewrite Hzero. reflexivity.
Qed.

Lemma pageFlipHandler_zero_timestamp_witness :
  pageFlipHandler (Some [gpu_oneOutput]) (fun _ => mkTimespec 5 0) 123456789
    (fun _ => gpu_oneOutput) 3 1 0 0 outA
  = [invalidTimestampLogged 0 0; pageFlipped outA; notifyFrameCompleted outA 123456789].
Proof.
  apply (pageFlipHandler_zero_timestamp [gpu_oneOutput] gpu_oneOutput); reflexivity.
Defined.

(** ** Frame reasoning *)

Lemma preserves_ret {A B} (f : DrmGpu -> B) (a : A) : preserves f (ret a).
Proof. intros gpu. reflexivity. Qed.

Lemma preserves_get {B} (f : DrmGpu -> B) : preserves f get.
Proof. intros gpu. reflexivity. Qed.

Lemma preserves_bind {A C B} (f : DrmGpu -> B) (c : M A) (k : A -> M C) :
  preserves f c -> (forall a, preserves f (k a)) -> preserves f (bind c k).
Proof.
  intros Hc Hk gpu. unfold bind. specialize (Hc gpu).
  destruct (c gpu) as [a gpu1]. simpl in Hc. rewrite Hk. exact Hc.
Qed.

Lemma preserves_modify {B} (f : DrmGpu -> B) (h : DrmGpu -> DrmGpu) :
  (forall gpu, f (h gpu) = f gpu) -> preserves f (modify h).
Proof. intros H gpu. apply H. Qed.

Lemma preserves_forEach {A B} (f : DrmGpu -> B) (body : A -> M unit) (l : list A) :
  (forall x, preserves f (body x)) -> preserves f (forEach body l).
Proof.
  intros Hbody. induction l as [|x l IH]; simpl.
  - apply preserves_ret.
  - apply preserves_bind; [apply Hbody | intros _; exact IH].
Qed.

Lemma preserves_firstWorking {A B} (f : DrmGpu -> B)
    (attempt : A -> M (list DrmPipeline)) (l : list A) :
  (forall x, preserves f (attempt x)) -> preserves f (firstWorking attempt l).
Proof.
  intros Hatt. induction l as [|x l IH]; simpl.
  - apply preserves_ret.
  - apply preserves_bind; [apply Hatt |].
    intros w. destruct (negb (isEmpty w)); [apply preserves_ret | exact IH].
Qed.

(** Break a monadic goal down to its primitive updates. *)
Ltac frame_step :=
  match goal with
  | |- preserves _ (bind _ _) => apply preserves_bind; [| intros ?]
  | |- preserves _ (ret _) => apply preserves_ret
  | |- preserves _ get => apply preserves_get
  | |- preserves _ (forEach _ _) => apply preserves_forEach; intros ?
  | |- preserves _ (firstWorking _ _) => apply preserves_firstWorking; intros ?
  | |- preserves _ (modify _) => apply preserves_modify; intros ?
  | |- preserves _ (match ?x with _ => _ end) => destruct x
  | |- preserves _ (let '(_, _) := ?x in _) => destruct x
  end.

Section SearchFrame.
Context {B : Type} (f : DrmGpu -> B).
Hypothesis f_pipelineObjs : forall v gpu, f (set_pipelineObjs v gpu) = f gpu.
Hypothesis f_outputObjs : forall v gpu, f (set_outputObjs v gpu) = f gpu.
Hypothesis f_nextAddr : forall v gpu, f (set_nextAddr v gpu) = f gpu.
Hypothesis f_testCommits : forall v gpu, f (set_testCommits v gpu) = f gpu.
Hypothesis f_emitted : forall v gpu, f (set_emitted v gpu) = f gpu.

Lemma preserves_emit s : preserves f (emit s).
Proof using f_emitted. unfold emit. frame_step. apply f_emitted. Qed.

Lemma preserves_newPipeline c crtc : preserves f (newPipeline c crtc).
Proof using f_pipelineObjs f_nextAddr.
  intros gpu. unfold newPipeline. simpl. now rewrite f_nextAddr, f_pipelineObjs.
Qed.

Lemma preserves_deletePipeline p : preserves f (deletePipeline p).
Proof using f_pipelineObjs. unfold deletePipeline. frame_step. apply f_pipelineObjs. Qed.

Lemma preserves_pipeline_setOutput p o : preserves f (pipeline_setOutput p o).
Proof using f_pipelineObjs. unfold pipeline_setOutput. frame_step. apply f_pipelineObjs. Qed.

Lemma preserves_pipeline_setActive p b : preserves f (pipeline_setActive p b).
Proof using f_pipelineObjs. unfold pipeline_setActive. frame_step. apply f_pipelineObjs. Qed.

Lemma preserves_output_setPipeline o p : preserves f (output_setPipeline o p).
Proof using f_outputObjs. unfold output_setPipeline. frame_step. apply f_outputObjs. Qed.

Lemma preserves_deleteOutput o : preserves f (deleteOutput o).
Proof using f_outputObjs. unfold deleteOutput. frame_step. apply f_outputObjs. Qed.

Lemma preserves_newOutput p : preserves f (newOutput p).
Proof using f_pipelineObjs f_outputObjs f_nextAddr.
  intros gpu. unfold newOutput. simpl.
  now rewrite f_pipelineObjs, f_nextAddr, f_outputObjs.
Qed.

Lemma preserves_commitCombination commitTest pipelines :
  preserves f (commitCombination commitTest pipelines).
Proof using All.
  unfold commitCombination, setupCombination, discardTestOutputs.
  repeat first
    [ apply preserves_emit | apply preserves_newOutput | apply preserves_deleteOutput
    | apply preserves_output_setPipeline | apply preserves_pipeline_setOutput
    | apply f_testCommits | frame_step ].
Qed.

Lemma preserves_testConfiguration commitTest pipelines :
  preserves f (testConfiguration commitTest pipelines).
Proof using All.
  unfold testConfiguration.
  repeat first [ apply preserves_commitCombination | frame_step ].
Qed.

Lemma preserves_findWorkingCombination commitTest connectors :
  forall pipelines crtcs,
    preserves f (findWorkingCombination commitTest pipelines connectors crtcs).
Proof using All.
  induction connectors as [|connector connectorsLeft IH]; intros pipelines crtcs; simpl.
  - apply preserves_testConfiguration.
  - unfold recurse.
    repeat first
      [ apply preserves_testConfiguration | apply preserves_newPipeline
      | apply preserves_deletePipeline | apply IH | frame_step ].
Qed.
End SearchFrame.

Section StashFrame.
Context {B : Type} (f : DrmGpu -> B).
Hypothesis f_pipelines : forall v gpu, f (set_pipelines v gpu) = f gpu.
Hypothesis f_outputObjs : forall v gpu, f (set_outputObjs v gpu) = f gpu.
Hypothesis f_emitted : forall v gpu, f (set_emitted v gpu) = f gpu.

Lemma preserves_pipelines_removeOne p : preserves f (pipelines_removeOne p).
Proof using f_pipelines.
  unfold pipelines_removeOne. destruct p; [| apply preserves_ret].
  apply preserves_modify. intros gpu. apply f_pipelines.
Qed.

Lemma preserves_stashPipelines outputs :
  forall old, preserves f (stashPipelines outputs old).
Proof using All.
  induction outputs as [|o rest IH]; intros old; simpl.
  - apply preserves_ret.
  - repeat first
      [ apply IH | apply preserves_pipelines_removeOne
      | apply preserves_emit; assumption
      | apply preserves_output_setPipeline; assumption
      | frame_step ].
Qed.

Lemma preserves_excludeLeased los :
  forall connectors crtcs, preserves f (excludeLeased los connectors crtcs).
Proof using f_pipelines.
  induction los as [|o rest IH]; intros connectors crtcs; simpl.
  - apply preserves_ret.
  - repeat first [ apply IH | apply preserves_pipelines_removeOne | frame_step ].
Qed.
End StashFrame.

Lemma preserves_restoreOldPipelines {B} (f : DrmGpu -> B) old :
  (forall v gpu, f (set_pipelineObjs v gpu) = f gpu) ->
  forall config, preserves f (restoreOldPipelines old config).
Proof.
  intros Hf. induction old as [|[o [p|]] rest IH]; intros config; simpl.
  - apply preserves_ret.
  - apply preserves_bind; [apply preserves_get | intros gpu].
    destruct (bool_decide _); [| apply preserves_ret].
    apply preserves_bind; [apply preserves_pipeline_setOutput, Hf | intros _; apply IH].
  - apply preserves_ret.
Qed.

Lemma preserves_adoptPipeline {B} (f : DrmGpu -> B) initCursor p :
  (forall q b, preserves f (pipeline_setActive q b)) ->
  (forall v gpu, f (set_leaseOutputObjs v gpu) = f gpu) ->
  (forall v gpu, f (set_leaseOutputs v gpu) = f gpu) ->
  (forall v gpu, f (set_nextAddr v gpu) = f gpu) ->
  (forall v gpu, f (set_outputs v gpu) = f gpu) ->
  (forall v gpu, f (set_drmOutputs v gpu) = f gpu) ->
  (forall v gpu, f (set_emitted v gpu) = f gpu) ->
  preserves f (adoptPipeline initCursor p).
Proof.
  intros Hactive Hlobjs Hlos Hnext Houts Hdrm Hem.
  unfold adoptPipeline, leaseOutput_setPipeline.
  repeat first
    [ apply Hactive
    | apply preserves_emit; exact Hem
    | (intros gpu; unfold newLeaseOutput; simpl; now rewrite Hnext, Hlobjs)
    | match goal with
      | |- preserves _ (modify _) => apply preserves_modify; intros ?; solve [auto]
      end
    | frame_step ].
Qed.

(** ** What the member functions leave alone

    An observation that no field update of the GPU object changes is
    kept by every member function. *)

Section DeviceFrame.
Context {B : Type} (f : DrmGpu -> B).
Hypothesis f_pipelines : forall v gpu, f (set_pipelines v gpu) = f gpu.
Hypothesis f_outputs : forall v gpu, f (set_outputs v gpu) = f gpu.
Hypothesis f_drmOutputs : forall v gpu, f (set_drmOutputs v gpu) = f gpu.
Hypothesis f_leaseOutputs : forall v gpu, f (set_leaseOutputs v gpu) = f gpu.
Hypothesis f_pipelineObjs : forall v gpu, f (set_pipelineObjs v gpu) = f gpu.
Hypothesis f_outputObjs : forall v gpu, f (set_outputObjs v gpu) = f gpu.
Hypothesis f_leaseOutputObjs : forall v gpu, f (set_leaseOutputObjs v gpu) = f gpu.
Hypothesis f_nextAddr : forall v gpu, f (set_nextAddr v gpu) = f gpu.
Hypothesis f_testCommits : forall v gpu, f (set_testCommits v gpu) = f gpu.
Hypothesis f_emitted : forall v gpu, f (set_emitted v gpu) = f gpu.

Ltac frame_device :=
  repeat first
    [ apply preserves_findWorkingCombination; assumption
    | apply preserves_emit; assumption
    | apply preserves_deletePipeline; assumption
    | apply preserves_pipeline_setOutput; assumption
    | apply preserves_pipeline_setActive; assumption
    | apply preserves_output_setPipeline; assumption
    | apply preserves_deleteOutput; assumption
    | match goal with
      | |- preserves _ (modify _) => apply preserves_modify; intros ?; solve [auto]
      end
    | frame_step ].

Lemma device_removeOutput o : preserves f (removeOutput o).
Proof using All. unfold removeOutput. frame_device. Qed.

Lemma device_removeLeaseOutput o : preserves f (removeLeaseOutput o).
Proof using All. unfold removeLeaseOutput. frame_device. Qed.

Lemma device_handleLeaseRevoked l : preserves f (handleLeaseRevoked l).
Proof using All. unfold handleLeaseRevoked, leaseOutput_setLease. frame_device. Qed.

Lemma device_handleLeaseRequest createLeaseK request conns :
  preserves f (handleLeaseRequest createLeaseK request conns).
Proof using All. unfold handleLeaseRequest, leaseOutput_setLease. frame_device. Qed.

Lemma device_collectConnected conns :
  forall connected, preserves f (collectConnected conns connected).
Proof using All.
  induction conns as [|conn rest IH]; intros connected; simpl.
  - apply preserves_ret.
  - repeat first
      [ apply IH | apply device_removeOutput | apply device_removeLeaseOutput | frame_step ].
Qed.

Lemma device_stashPipelines outputs :
  forall old, preserves f (stashPipelines outputs old).
Proof using All. intros old. now apply preserves_stashPipelines. Qed.

Lemma device_excludeLeased los :
  forall connectors crtcs, preserves f (excludeLeased los connectors crtcs).
Proof using All. intros connectors crtcs. now apply preserves_excludeLeased. Qed.

Lemma device_negotiate commitTest old connectors crtcs :
  preserves f (negotiate commitTest old connectors crtcs).
Proof using All.
  unfold negotiate.
  repeat first
    [ apply preserves_restoreOldPipelines; assumption | progress frame_device ].
Qed.

Lemma device_renegotiate commitTest connected :
  preserves f (renegotiate commitTest connected).
Proof using All.
  unfold renegotiate, prepareSearch.
  repeat first
    [ apply device_stashPipelines | apply device_excludeLeased | apply device_negotiate
    | frame_step ].
Qed.

Lemma device_adoptPipeline initCursor p : preserves f (adoptPipeline initCursor p).
Proof using All.
  apply preserves_adoptPipeline; try assumption.
  intros q b. now apply preserves_pipeline_setActive.
Qed.
End DeviceFrame.

(** [updateOutputs] rewrites the connector vector; the observations it
    keeps are those that, on top, do not read that vector. *)
Section RefreshFrame.
Context {B : Type} (f : DrmGpu -> B).
Hypothesis f_connectors : forall v gpu, f (set_connectors v gpu) = f gpu.
Hypothesis f_pipelines : forall v gpu, f (set_pipelines v gpu) = f gpu.
Hypothesis f_outputs : forall v gpu, f (set_outputs v gpu) = f gpu.
Hypothesis f_drmOutputs : forall v gpu, f (set_drmOutputs v gpu) = f gpu.
Hypothesis f_leaseOutputs : forall v gpu, f (set_leaseOutputs v gpu) = f gpu.
Hypothesis f_pipelineObjs : forall v gpu, f (set_pipelineObjs v gpu) = f gpu.
Hypothesis f_outputObjs : forall v gpu, f (set_outputObjs v gpu) = f gpu.
Hypothesis f_leaseOutputObjs : forall v gpu, f (set_leaseOutputObjs v gpu) = f gpu.
Hypothesis f_nextAddr : forall v gpu, f (set_nextAddr v gpu) = f gpu.
Hypothesis f_testCommits : forall v gpu, f (set_testCommits v gpu) = f gpu.
Hypothesis f_emitted : forall v gpu, f (set_emitted v gpu) = f gpu.

Lemma device_reconcileConnectors k ids : preserves f (reconcileConnectors k ids).
Proof using All.
  unfold reconcileConnectors, denyStaleLeases, dropConnector.
  repeat first
    [ apply device_collectConnected; assumption
    | apply device_removeOutput; assumption
    | apply device_removeLeaseOutput; assumption
    | apply device_handleLeaseRevoked; assumption
    | apply preserves_emit; assumption
    | match goal with
      | |- preserves _ (modify _) => apply preserves_modify; intros ?; solve [auto]
      end
    | frame_step ].
Qed.

Lemma device_updateOutputs commitTest k : preserves f (updateOutputs commitTest k).
Proof using All.
  unfold updateOutputs.
  repeat first
    [ apply device_reconcileConnectors | apply device_renegotiate; assumption
    | apply device_adoptPipeline; assumption | apply preserves_emit; assumption
    | frame_step ].
Qed.

Lemma device_runCall c gpu : f (runCall c gpu) = f gpu.
Proof using All.
  destruct c; simpl.
  - apply device_updateOutputs.
  - now apply device_handleLeaseRequest.
  - now apply device_handleLeaseRevoked.
  - now apply device_removeOutput.
  - now apply device_removeLeaseOutput.
Qed.

Lemma device_runCalls cs : forall gpu, f (runCalls cs gpu) = f gpu.
Proof using All.
  induction cs as [|c cs IH]; intros gpu; simpl; [reflexivity |].
  unfold runCalls in IH. rewrite IH. apply device_runCall.
Qed.
End RefreshFrame.

(** ** The atomic-mode flag *)

Lemma atomic_runCalls cs gpu :
  m_atomicModeSetting (runCalls cs gpu) = m_atomicModeSetting gpu.
Proof. apply (device_runCalls m_atomicModeSetting); reflexivity. Qed.

Lemma atomic_initDrmResources k gpu :
  m_atomicModeSetting (initDrmResources k gpu)
  = k_atomicCap k
    && match k_planeResources k with
       | Some kplanes => negb (isEmpty (createPlanes kplanes (m_planes gpu)))
       | None => false
       end.
Proof.
  unfold initDrmResources.
  destruct (k_atomicCap k); simpl.
  - destruct (k_planeResources k) as [kplanes|]; simpl.
    + destruct (isEmpty (createPlanes kplanes (m_planes gpu))); destruct (k_crtcs k); reflexivity.
    + destruct (k_crtcs k); reflexivity.
  - destruct (k_crtcs k); reflexivity.
Qed.

(** C4 (as amended): whatever calls follow the constructor, the
    atomic-mode flag is true exactly when KWIN_DRM_NO_AMS is unset, the
    atomic client capability was granted, the plane resources could be
    queried and at least one plane object initialised; so each of the
    three failures leaves the device in legacy mode for good.  The CRTC
    loop never touches the flag: in atomic mode a CRTC without a matching
    primary plane is skipped. *)
Theorem atomicModeSetting_fixed_at_discovery (fd : Z) (monotonicCap : Z * Z) (noAms : bool)
    (k : KernelResources) (calls : list GpuCall) :
  m_atomicModeSetting (runCalls calls (DrmGpu_new fd monotonicCap noAms k))
  = negb noAms
    && k_atomicCap k
    && match k_planeResources k with
       | Some kplanes => negb (isEmpty (createPlanes kplanes []))
       | None => false
       end
  /\ forall i crtcId initOk rest planes crtcs,
       findPrimaryPlane planes i crtcId None = None ->
       discoverCrtcs true i ((crtcId, initOk) :: rest) planes crtcs
       = discoverCrtcs true (S i) rest planes crtcs.
Proof.
  split.
  - rewrite atomic_runCalls. unfold DrmGpu_new.
    destruct noAms; simpl; [reflexivity |].
    rewrite atomic_initDrmResources. reflexivity.
  - intros i crtcId initOk rest planes crtcs Hnone. simpl. rewrite Hnone. reflexivity.
Qed.

(** C4, the claim as stated fails: with one primary plane that only fits
    CRTC index 0, no primary plane matches the second CRTC, yet the
    device stays in atomic mode and merely lacks that CRTC. *)
Lemma atomicModeSetting_survives_unmatched_crtc :
  let gpu := DrmGpu_new 3 (0, 1)%Z false kernel_onePrimary in
  findPrimaryPlane (removeOne same_plane planeP (m_planes gpu)) 1 52 None = None
  /\ m_atomicModeSetting gpu = true
  /\ m_crtcs gpu = [mkCrtc 51 0 (Some 61%Z)]
  /\ forall calls, m_atomicModeSetting (runCalls calls gpu) <> false.
Proof.
  repeat split; try reflexivity.
  intros calls. rewrite atomic_runCalls. discriminate.
Qed.

(** ** The sort *)

Lemma unguarded_linear_insert_perm {A} (comp : A -> A -> bool) (val : A) (before : list A) :
  forall after, unguarded_linear_insert comp val before after ≡ₚ val :: before ++ after.
Proof.
  induction before as [|next rest IH]; intros after; simpl.
  - reflexivity.
  - destruct (comp val next).
    + rewrite IH. rewrite (Permutation_middle rest after next). reflexivity.
    + rewrite <- Permutation_middle. constructor.
      change (next :: rest ++ after) with ((next :: rest) ++ after).
      apply Permutation_app_tail.
      change (rev rest ++ [next]) with (rev (next :: rest)).
      symmetry. apply Permutation_rev.
Qed.

Lemma insertion_sort_loop_perm {A} (comp : A -> A -> bool) (todo : list A) :
  forall sorted, insertion_sort_loop comp sorted todo ≡ₚ sorted ++ todo.
Proof.
  induction todo as [|x rest IH]; intros sorted; simpl.
  - now rewrite app_nil_r.
  - rewrite IH. rewrite <- Permutation_middle.
    change (x :: sorted ++ rest) with ((x :: sorted) ++ rest).
    apply Permutation_app_tail.
    destruct sorted as [|first sorted']; [reflexivity |].
    destruct (comp x first); [reflexivity |].
    rewrite unguarded_linear_insert_perm, app_nil_r, <- Permutation_rev. reflexivity.
Qed.

Lemma std_sort_perm {A} (comp : A -> A -> bool) (l : list A) : std_sort comp l ≡ₚ l.
Proof. unfold std_sort. now rewrite insertion_sort_loop_perm. Qed.

Lemma unguarded_linear_insert_never {A} (comp : A -> A -> bool) (val : A) (before : list A) :
  (forall y, comp val y = false) ->
  unguarded_linear_insert comp val before [] = rev before ++ [val].
Proof.
  intros Hnever. destruct before as [|next rest]; simpl; [reflexivity |].
  now rewrite Hnever.
Qed.

Lemma insertion_sort_loop_hint (connector : DrmConnector) (todo : list DrmCrtc) :
  forall sorted,
    hintedInFront connector sorted ->
    hintedInFront connector (insertion_sort_loop (crtcHintFirst connector) sorted todo).
Proof.
  induction todo as [|x rest IH]; intros sorted Hinv; simpl; [exact Hinv |].
  apply IH. destruct sorted as [|first sorted'].
  - intros (y & Hy & Hid). apply list_elem_of_singleton in Hy as ->. eauto.
  - unfold crtcHintFirst at 1.
    destruct (conn_crtcIdProp connector =? crtc_id x)%Z eqn:Ex.
    + apply Z.eqb_eq in Ex. intros _. eauto.
    + rewrite unguarded_linear_insert_never
        by (intros y; unfold crtcHintFirst; exact Ex).
      rewrite rev_involutive. apply Z.eqb_neq in Ex.
      intros (y & Hy & Hid). change ((first :: sorted') ++ [x]) with (first :: (sorted' ++ [x])).
      destruct Hinv as (f0 & o0 & Heq & Hf0).
      * exists y. split; [| exact Hid].
        change (first :: sorted' ++ [x]) with ((first :: sorted') ++ [x]) in Hy.
        apply elem_of_app in Hy as [Hy | Hy]; [exact Hy |].
        apply list_elem_of_singleton in Hy as ->. congruence.
      * inversion Heq; subst. eauto.
Qed.

Lemma std_sort_hint_first (connector : DrmConnector) (crtcs : list DrmCrtc) (x : DrmCrtc) :
  x ∈ crtcs -> crtc_id x = conn_crtcIdProp connector ->
  exists first others,
    std_sort (crtcHintFirst connector) crtcs = first :: others
    /\ crtc_id first = conn_crtcIdProp connector.
Proof.
  intros Hin Hid.
  assert (hintedInFront connector (std_sort (crtcHintFirst connector) crtcs)) as H.
  { apply insertion_sort_loop_hint. intros (y & Hy & _). inversion Hy. }
  apply H. exists x. split; [| exact Hid].
  now rewrite std_sort_perm.
Qed.

(** ** [removeOne] *)

Section RemoveOne.
Context {A K : Type} (key : A -> K) (same : A -> A -> bool).
Hypothesis same_key : forall a b, same a b = true <-> key a = key b.

Lemma removeOne_elem_of x y l : x ∈ removeOne same y l -> x ∈ l.
Proof using Type.
  induction l as [|z l IH]; simpl; [easy |].
  destruct (same y z).
  - intros H. now apply elem_of_cons; right.
  - intros H. apply elem_of_cons in H as [-> | H]; apply elem_of_cons; auto.
Qed.

Lemma removeOne_key_elem_of k y l :
  k ∈ map key (removeOne same y l) -> k ∈ map key l.
Proof using Type.
  induction l as [|z l IH]; simpl; [easy |].
  destruct (same y z); simpl.
  - intros H. now apply elem_of_cons; right.
  - intros H. apply elem_of_cons in H as [-> | H]; apply elem_of_cons; auto.
Qed.

Lemma removeOne_NoDup y l : NoDup (map key l) -> NoDup (map key (removeOne same y l)).
Proof using Type.
  induction l as [|z l IH]; simpl; [easy |].
  intros H. apply NoDup_cons in H as [Hz Hl].
  destruct (same y z); simpl; [exact Hl |].
  apply NoDup_cons. split; [| auto].
  intros Hin. apply Hz. now apply removeOne_key_elem_of in Hin.
Qed.

Lemma removeOne_key_gone y l :
  NoDup (map key l) -> key y ∉ map key (removeOne same y l).
Proof using same_key.
  induction l as [|z l IH]; simpl; [intros _ H; inversion H |].
  intros H. apply NoDup_cons in H as [Hz Hl].
  destruct (same y z) eqn:E; simpl.
  - apply same_key in E. now rewrite E.
  - intros Hin. apply elem_of_cons in Hin as [Hin | Hin].
    + apply same_key in Hin. congruence.
    + now apply IH.
Qed.

Lemma removeOne_absent y l : key y ∉ map key l -> removeOne same y l = l.
Proof using same_key.
  induction l as [|z l IH]; simpl; [easy |].
  intros H. apply not_elem_of_cons in H as [Hne Hl].
  destruct (same y z) eqn:E.
  - apply same_key in E. contradiction.
  - now rewrite IH.
Qed.

End RemoveOne.

Lemma same_crtc_key a b : same_crtc a b = true <-> crtc_pipeIndex a = crtc_pipeIndex b.
Proof. unfold same_crtc. apply Nat.eqb_eq. Qed.

Lemma same_connector_key a b : same_connector a b = true <-> conn_id a = conn_id b.
Proof. unfold same_connector. apply Z.eqb_eq. Qed.



(** ** What the search returns *)

Lemma assigned_connector_in new connectors crtcs :
  assigned new connectors crtcs ->
  forall p, p ∈ new -> pl_connector p ∈ connectors.
Proof.
  induction 1 as [|p new c cs crs crs' Hc Hperm Hin Hrest IH]; intros q Hq.
  - inversion Hq.
  - apply elem_of_cons in Hq as [-> | Hq]; apply elem_of_cons; [left; exact Hc | right; auto].
Qed.

Lemma assigned_crtc_in new connectors crtcs :
  assigned new connectors crtcs ->
  forall p, p ∈ new -> pl_crtc p ∈ crtcs.
Proof.
  induction 1 as [|p new c cs crs crs' Hc Hperm Hin Hrest IH]; intros q Hq.
  - inversion Hq.
  - apply elem_of_cons in Hq as [-> | Hq].
    + now rewrite <- Hperm.
    + rewrite <- Hperm. eapply removeOne_elem_of. apply IH, Hq.
Qed.



Lemma firstWorking_post {A} (P : list DrmPipeline -> Prop)
    (attempt : A -> M (list DrmPipeline)) (l : list A) :
  P [] ->
  (forall x gpu, x ∈ l -> P (fst (attempt x gpu))) ->
  forall gpu, P (fst (firstWorking attempt l gpu)).
Proof.
  intros Hnil Hatt. induction l as [|x l IH]; intros gpu; simpl; [exact Hnil |].
  unfold bind. pose proof (Hatt x gpu ltac:(apply elem_of_cons; now left)) as Hx.
  destruct (attempt x gpu) as [w gpu1]. simpl in Hx.
  destruct (isEmpty w); simpl; [| exact Hx].
  apply IH. intros y g Hy. apply Hatt. now apply elem_of_cons; right.
Qed.

Lemma testConfiguration_fst commitTest pipelines gpu :
  fst (testConfiguration commitTest pipelines gpu) = pipelines
  \/ fst (testConfiguration commitTest pipelines gpu) = [].
Proof.
  unfold testConfiguration. destruct (isEmpty pipelines); [now left |].
  unfold bind. destruct (commitCombination commitTest pipelines gpu) as [[|] gpu1];
    simpl; auto.
Qed.

Lemma recurse_fst search connector crtcs pipelines crtc gpu :
  fst (recurse search connector crtcs pipelines crtc gpu)
  = fst (search (pipelines ++ [mkPipeline (nextAddr gpu) connector crtc])
           (removeOne same_crtc crtc crtcs) (snd (newPipeline connector crtc gpu))).
Proof.
  unfold recurse, bind. simpl.
  destruct (search _ _ _) as [r gpu2]. simpl.
  destruct (isEmpty r); reflexivity.
Qed.

Lemma crtcOrder_perm atomic connector crtcs : crtcOrder atomic connector crtcs ≡ₚ crtcs.
Proof. unfold crtcOrder. destruct atomic; [apply std_sort_perm | reflexivity]. Qed.

(** A non-empty result extends the accumulated pipelines by bindings of
    the leading connectors to CRTCs drawn from the pool. *)
Lemma findWorkingCombination_shape commitTest connectors :
  forall pipelines crtcs gpu,
    let r := fst (findWorkingCombination commitTest pipelines connectors crtcs gpu) in
    r = [] \/ exists new, r = pipelines ++ new /\ assigned new connectors crtcs.
Proof.
  induction connectors as [|connector connectorsLeft IH]; intros pipelines crtcs gpu; simpl.
  - destruct (testConfiguration_fst commitTest pipelines gpu) as [-> | ->]; [right | now left].
    exists []. rewrite app_nil_r. split; [reflexivity | constructor].
  - destruct (isEmpty crtcs).
    + destruct (testConfiguration_fst commitTest pipelines gpu) as [-> | ->]; [right | now left].
      exists []. rewrite app_nil_r. split; [reflexivity | constructor].
    + unfold bind, get.
      set (crtcs' := crtcOrder (m_atomicModeSetting gpu) connector crtcs).
      apply (firstWorking_post
               (fun r => r = [] \/ exists new,
                    r = pipelines ++ new /\ assigned new (connector :: connectorsLeft) crtcs));
        [now left |].
      intros _ g1 _.
      apply (firstWorking_post
               (fun r => r = [] \/ exists new,
                    r = pipelines ++ new /\ assigned new (connector :: connectorsLeft) crtcs));
        [now left |].
      intros crtc g2 Hcrtc. rewrite recurse_fst.
      destruct (IH (pipelines ++ [mkPipeline (nextAddr g2) connector crtc])
                  (removeOne same_crtc crtc crtcs') (snd (newPipeline connector crtc g2)))
        as [-> | (new' & -> & Hass)]; [now left | right].
      exists (mkPipeline (nextAddr g2) connector crtc :: new').
      split; [now rewrite <- app_assoc |].
      eapply assigned_cons; [reflexivity | apply crtcOrder_perm | exact Hcrtc | exact Hass].
Qed.



(** ** The CRTC hint *)

Lemma NoDup_map_inj {A K} (key : A -> K) (l : list A) (a b : A) :
  NoDup (map key l) -> a ∈ l -> b ∈ l -> key a = key b -> a = b.
Proof.
  induction l as [|z l IH]; simpl; intros Hnd Ha Hb Hk; [inversion Ha |].
  apply NoDup_cons in Hnd as [Hz Hl].
  apply elem_of_cons in Ha as [-> | Ha]; apply elem_of_cons in Hb as [-> | Hb]; auto.
  - exfalso. apply Hz. rewrite Hk. now apply list_elem_of_fmap_2.
  - exfalso. apply Hz. rewrite <- Hk. now apply list_elem_of_fmap_2.
Qed.

Lemma firstWorking_head {A} (attempt : A -> M (list DrmPipeline)) (x : A) (l : list A) gpu :
  fst (attempt x gpu) <> [] -> firstWorking attempt (x :: l) gpu = attempt x gpu.
Proof.
  intros Hne. simpl. unfold bind. destruct (attempt x gpu) as [w gpu1]. simpl in Hne.
  destruct w; [contradiction | reflexivity].
Qed.

(** C3 (as amended): in atomic mode, for a connector with an encoder
    whose hint names a CRTC of the pool, the pool is reordered so that a
    CRTC of the hinted id comes first (the hinted CRTC itself when ids are
    unique), the first pipeline hypothesised for the connector binds it to
    that CRTC, and if the search below this hypothesis comes back
    non-empty, that result is returned at once and holds the pipeline. *)
Theorem hinted_crtc_tried_first (commitTest : CommitTest) (pipelines : list DrmPipeline)
    (connector : DrmConnector) (connectorsLeft : list DrmConnector)
    (crtcs : list DrmCrtc) (gpu : DrmGpu) (x : DrmCrtc) :
  m_atomicModeSetting gpu = true ->
  x ∈ crtcs ->
  crtc_id x = conn_crtcIdProp connector ->
  conn_encoders connector <> [] ->
  exists first others,
    crtcOrder true connector crtcs = first :: others
    /\ crtc_id first = conn_crtcIdProp connector
    /\ (NoDup (map crtc_id crtcs) -> first = x)
    /\ let attempt :=
         recurse (fun allPipelines crtcsLeft =>
                    findWorkingCombination commitTest allPipelines connectorsLeft crtcsLeft)
                 connector (first :: others) pipelines first in
       (fst (attempt gpu) <> [] ->
        findWorkingCombination commitTest pipelines (connector :: connectorsLeft) crtcs gpu
        = attempt gpu
        /\ exists new,
             fst (attempt gpu)
             = pipelines ++ mkPipeline (nextAddr gpu) connector first :: new).
Proof.
  intros Hatomic Hin Hid Henc.
  destruct (std_sort_hint_first connector crtcs x Hin Hid) as (first & others & Hsort & Hfirst).
  exists first, others. split; [exact Hsort |]. split; [exact Hfirst |]. split.
  - intros Hnd. apply (NoDup_map_inj crtc_id crtcs); auto; [| congruence].
    rewrite <- (std_sort_perm (crtcHintFirst connector) crtcs).
    unfold crtcOrder in Hsort. rewrite Hsort. apply elem_of_cons. now left.
  - intros attempt Hne. split.
    + destruct crtcs as [|c0 crtcs0]; [inversion Hin |].
      cbn [findWorkingCombination isEmpty]. unfold bind at 1. unfold get.
      rewrite Hatomic. unfold crtcOrder. rewrite Hsort.
      destruct (conn_encoders connector) as [|e es]; [contradiction |].
      assert (firstWorking
                (recurse (fun allPipelines crtcsLeft =>
                    findWorkingCombination commitTest allPipelines connectorsLeft crtcsLeft)
                   connector (first :: others) pipelines) (first :: others) gpu
              = attempt gpu) as Hinner
        by (apply firstWorking_head; exact Hne).
      rewrite firstWorking_head; rewrite Hinner; [reflexivity | exact Hne].
    + revert Hne. subst attempt. cbv zeta. rewrite recurse_fst. intros Hne.
      destruct (findWorkingCombination_shape commitTest connectorsLeft
                  (pipelines ++ [mkPipeline (nextAddr gpu) connector first])
                  (removeOne same_crtc first (first :: others))
                  (snd (newPipeline connector first gpu)))
        as [Hnil | (new & Hnew & _)]; [contradiction |].
      exists new. rewrite Hnew. now rewrite <- app_assoc.
Qed.

Lemma hinted_crtc_tried_first_witness :
  exists first others,
    crtcOrder true connA [crtc2; crtc1] = first :: others
    /\ crtc_id first = conn_crtcIdProp connA
    /\ (NoDup (map crtc_id [crtc2; crtc1]) -> first = crtc1)
    /\ let attempt :=
         recurse (fun allPipelines crtcsLeft =>
                    findWorkingCombination acceptAll allPipelines [connB] crtcsLeft)
                 connA (first :: others) [] first in
       (fst (attempt gpu_atomic) <> [] ->
        findWorkingCombination acceptAll [] [connA; connB] [crtc2; crtc1] gpu_atomic
        = attempt gpu_atomic
        /\ exists new,
             fst (attempt gpu_atomic)
             = [] ++ mkPipeline (nextAddr gpu_atomic) connA first :: new).
Proof.
  apply (hinted_crtc_tried_first acceptAll [] connA [connB] [crtc2; crtc1] gpu_atomic crtc1).
  - reflexivity.
  - constructor 2. constructor 1.
  - reflexivity.
  - discriminate.
Defined.

(** C3, the claim as stated fails: connector 31 hints at CRTC 51, which
    is in the pool and free when the connector is processed, the search
    tries it first, the driver refuses it, and the result binds the
    connector to CRTC 52 instead. *)
Lemma hinted_crtc_not_bound :
  m_atomicModeSetting gpu_atomic = true
  /\ conn_crtcIdProp connA = crtc_id crtc1
  /\ crtc1 ∈ [crtc1; crtc2]
  /\ map (fun p => (conn_id (pl_connector p), crtc_id (pl_crtc p)))
         (fst (findWorkingCombination rejectA1 [] [connA; connB] [crtc1; crtc2] gpu_atomic))
     = [(31, 52); (32, 51)]%Z
  /\ map (map (fun p => (conn_id (pl_connector p), crtc_id (pl_crtc p))))
         (testCommits
            (snd (findWorkingCombination rejectA1 [] [connA; connB] [crtc1; crtc2] gpu_atomic)))
     = [[(31, 52); (32, 51)]; [(31, 51); (32, 52)]]%Z.
Proof.
  repeat split; try reflexivity.
  constructor 1.
Qed.

(** ** Leased resources stay out of the search *)

Lemma leaseOutput_lease_ext g1 g2 o :
  leaseOutputObjs g1 = leaseOutputObjs g2 -> leaseOutput_lease g1 o = leaseOutput_lease g2 o.
Proof. unfold leaseOutput_lease. now intros ->. Qed.

Lemma leaseOutput_pipeline_ext g1 g2 o :
  leaseOutputObjs g1 = leaseOutputObjs g2 ->
  leaseOutput_pipeline g1 o = leaseOutput_pipeline g2 o.
Proof. unfold leaseOutput_pipeline. now intros ->. Qed.

(** The lists [excludeLeased] hands to the search: nothing is added,
    nothing gets repeated, and what a leased output holds is gone. *)
Lemma excludeLeased_lists los :
  forall connectors crtcs gpu,
    NoDup (map conn_id connectors) ->
    NoDup (map crtc_pipeIndex crtcs) ->
    let res := fst (excludeLeased los connectors crtcs gpu) in
    NoDup (map conn_id (fst res))
    /\ NoDup (map crtc_pipeIndex (snd res))
    /\ (forall k, k ∈ map conn_id (fst res) -> k ∈ map conn_id connectors)
    /\ (forall k, k ∈ map crtc_pipeIndex (snd res) -> k ∈ map crtc_pipeIndex crtcs)
    /\ forall o lease p,
         o ∈ los ->
         leaseOutput_lease gpu o = Some lease ->
         leaseOutput_pipeline gpu o = Some p ->
         (conn_id (pl_connector p) ∉ map conn_id (fst res))
         /\ (crtc_pipeIndex (pl_crtc p) ∉ map crtc_pipeIndex (snd res)).
Proof.
  induction los as [|o rest IH]; intros connectors crtcs gpu Hc Hr; simpl.
  - do 4 (split; [auto |]). intros o' lease p Ho'. inversion Ho'.
  - unfold bind, get.
    destruct (leaseOutput_lease gpu o) as [lease0|] eqn:Elease.
    + destruct (leaseOutput_pipeline gpu o) as [p0|] eqn:Epipe.
      * pose proof (removeOne_NoDup conn_id same_connector (pl_connector p0) _ Hc) as Hc'.
        pose proof (removeOne_NoDup crtc_pipeIndex same_crtc (pl_crtc p0) _ Hr) as Hr'.
        destruct (IH _ _ gpu Hc' Hr') as (H1 & H2 & H3 & H4 & H5).
        split; [exact H1 |]. split; [exact H2 |].
        split; [intros k Hk; eapply removeOne_key_elem_of; eauto |].
        split; [intros k Hk; eapply removeOne_key_elem_of; eauto |].
        intros o' lease p Ho' Hl Hp.
        apply elem_of_cons in Ho' as [-> | Ho']; [| eauto].
        rewrite Epipe in Hp. injection Hp as <-. split.
        -- intros Hin. apply H3 in Hin.
           exact (removeOne_key_gone conn_id same_connector same_connector_key _ _ Hc Hin).
        -- intros Hin. apply H4 in Hin.
           exact (removeOne_key_gone crtc_pipeIndex same_crtc same_crtc_key _ _ Hr Hin).
      * destruct (IH connectors crtcs gpu Hc Hr) as (H1 & H2 & H3 & H4 & H5).
        do 4 (split; [assumption |]).
        intros o' lease p Ho' Hl Hp.
        apply elem_of_cons in Ho' as [-> | Ho']; [congruence | eapply H5; eauto].
    + assert (leaseOutputObjs
                (snd (pipelines_removeOne (leaseOutput_pipeline gpu o) gpu))
              = leaseOutputObjs gpu) as Hsame
        by (apply (preserves_pipelines_removeOne leaseOutputObjs); reflexivity).
      destruct (pipelines_removeOne (leaseOutput_pipeline gpu o) gpu) as [[] g1] eqn:Eg1.
      simpl in Hsame.
      destruct (IH connectors crtcs g1 Hc Hr) as (H1 & H2 & H3 & H4 & H5).
      do 4 (split; [assumption |]).
      intros o' lease p Ho' Hl Hp.
      apply elem_of_cons in Ho' as [-> | Ho']; [congruence |].
      rewrite <- (leaseOutput_lease_ext g1 gpu o' Hsame) in Hl.
      rewrite <- (leaseOutput_pipeline_ext g1 gpu o' Hsame) in Hp.
      eapply H5; eauto.
Qed.

Lemma prepareSearch_unfold connected gpu :
  let g1 := snd (stashPipelines (m_drmOutputs gpu) [] gpu) in
  let connected' :=
    if m_atomicModeSetting g1 then std_sort boundFirst connected else connected in
  let res := excludeLeased (m_leaseOutputs g1) connected' (m_crtcs g1) g1 in
  prepareSearch connected gpu
  = ((fst (stashPipelines (m_drmOutputs gpu) [] gpu), fst (fst res), snd (fst res)), snd res).
Proof.
  unfold prepareSearch, bind, get.
  destruct (stashPipelines (m_drmOutputs gpu) [] gpu) as [old g1]. simpl.
  destruct (excludeLeased _ _ _ g1) as [[cs crs] g2]. reflexivity.
Qed.

(** C7: what a lease output with an active lease holds, its pipeline's
    connector and CRTC, is not in the lists the refresh hands to the
    search, and no pipeline the search returns uses either of them. *)
Theorem leased_resources_excluded (commitTest : CommitTest)
    (connectedConnectors : list DrmConnector) (gpu : DrmGpu)
    (o : nat) (lease : Lease) (p : DrmPipeline) :
  NoDup (map conn_id connectedConnectors) ->
  NoDup (map crtc_pipeIndex (m_crtcs gpu)) ->
  o ∈ m_leaseOutputs gpu ->
  leaseOutput_lease gpu o = Some lease ->
  leaseOutput_pipeline gpu o = Some p ->
  let prepared := prepareSearch connectedConnectors gpu in
  let connectors := snd (fst (fst prepared)) in
  let crtcs := snd (fst prepared) in
  (conn_id (pl_connector p) ∉ map conn_id connectors)
  /\ (crtc_pipeIndex (pl_crtc p) ∉ map crtc_pipeIndex crtcs)
  /\ forall q,
       q ∈ fst (findWorkingCombination commitTest [] connectors crtcs (snd prepared)) ->
       conn_id (pl_connector q) <> conn_id (pl_connector p)
       /\ crtc_pipeIndex (pl_crtc q) <> crtc_pipeIndex (pl_crtc p).
Proof.
  intros Hc Hr Ho Hlease Hpipe. rewrite prepareSearch_unfold. cbv zeta. simpl.
  set (g1 := snd (stashPipelines (m_drmOutputs gpu) [] gpu)).
  assert (m_leaseOutputs g1 = m_leaseOutputs gpu) as Elos
    by (apply (preserves_stashPipelines m_leaseOutputs); reflexivity).
  assert (leaseOutputObjs g1 = leaseOutputObjs gpu) as Eobjs
    by (apply (preserves_stashPipelines leaseOutputObjs); reflexivity).
  assert (m_crtcs g1 = m_crtcs gpu) as Ecrtcs
    by (apply (preserves_stashPipelines m_crtcs); reflexivity).
  set (connected' := if m_atomicModeSetting g1
                     then std_sort boundFirst connectedConnectors
                     else connectedConnectors).
  assert (NoDup (map conn_id connected')) as Hc'.
  { subst connected'. destruct (m_atomicModeSetting g1); [| exact Hc].
    now rewrite std_sort_perm. }
  rewrite <- Ecrtcs in Hr. rewrite <- Elos in Ho.
  rewrite <- (leaseOutput_lease_ext g1 gpu o Eobjs) in Hlease.
  rewrite <- (leaseOutput_pipeline_ext g1 gpu o Eobjs) in Hpipe.
  destruct (excludeLeased_lists (m_leaseOutputs g1) connected' (m_crtcs g1) g1 Hc' Hr)
    as (_ & _ & _ & _ & Hgone).
  destruct (Hgone o lease p Ho Hlease Hpipe) as [Hconn Hcrtc].
  split; [exact Hconn |]. split; [exact Hcrtc |].
  intros q Hq.
  match type of Hq with
  | q ∈ fst (findWorkingCombination _ _ ?cs ?crs ?g) =>
      destruct (findWorkingCombination_shape commitTest cs [] crs g) as [Hnil | (new & Hnew & Hass)]
  end.
  - rewrite Hnil in Hq. inversion Hq.
  - rewrite Hnew in Hq. simpl in Hq. split; intros Heq.
    + apply Hconn. rewrite <- Heq. apply list_elem_of_fmap_2.
      eapply assigned_connector_in; eauto.
    + apply Hcrtc. rewrite <- Heq. apply list_elem_of_fmap_2.
      eapply assigned_crtc_in; eauto.
Qed.

Lemma leased_resources_excluded_witness :
  let prepared := prepareSearch [connA; connV] gpu_leased in
  let connectors := snd (fst (fst prepared)) in
  let crtcs := snd (fst prepared) in
  (conn_id (pl_connector pipeV) ∉ map conn_id connectors)
  /\ (crtc_pipeIndex (pl_crtc pipeV) ∉ map crtc_pipeIndex crtcs)
  /\ forall q,
       q ∈ fst (findWorkingCombination acceptAll [] connectors crtcs (snd prepared)) ->
       conn_id (pl_connector q) <> conn_id (pl_connector pipeV)
       /\ crtc_pipeIndex (pl_crtc q) <> crtc_pipeIndex (pl_crtc pipeV).
Proof.
  apply (leased_resources_excluded acceptAll [connA; connV] gpu_leased 200 leaseV pipeV).
  - apply (bool_decide_unpack _). vm_compute. exact I.
  - apply (bool_decide_unpack _). vm_compute. exact I.
  - constructor 1.
  - reflexivity.
  - reflexivity.
Defined.

(** ** The end of the recursion *)

Lemma testCommits_setupCombination pipelines :
  preserves testCommits (setupCombination pipelines).
Proof.
  unfold setupCombination.
  repeat first
    [ apply preserves_emit; intros; reflexivity
    | apply preserves_newOutput; intros; reflexivity
    | apply preserves_output_setPipeline; intros; reflexivity
    | apply preserves_pipeline_setOutput; intros; reflexivity
    | frame_step ].
Qed.

Lemma testCommits_discardTestOutputs pipelines :
  preserves testCommits (discardTestOutputs pipelines).
Proof.
  unfold discardTestOutputs.
  repeat first
    [ apply preserves_emit; intros; reflexivity
    | apply preserves_deleteOutput; intros; reflexivity
    | frame_step ].
Qed.

Lemma commitCombination_unfold commitTest pipelines gpu :
  let g1 := snd (setupCombination pipelines gpu) in
  let g2 := set_testCommits (pipelines :: testCommits g1) g1 in
  commitCombination commitTest pipelines gpu
  = if commitTest g1 pipelines then (true, g2)
    else (false, snd (discardTestOutputs pipelines g2)).
Proof.
  unfold commitCombination, bind, get, modify.
  destruct (setupCombination pipelines gpu) as [[] g1]. simpl.
  destruct (commitTest g1 pipelines); [reflexivity |].
  destruct (discardTestOutputs pipelines _) as [[] g3]. reflexivity.
Qed.

Lemma testConfiguration_nil commitTest gpu :
  testConfiguration commitTest [] gpu = ([], gpu).
Proof. reflexivity. Qed.

Lemma testConfiguration_commit commitTest pipelines gpu :
  pipelines <> [] ->
  let res := testConfiguration commitTest pipelines gpu in
  testCommits (snd res) = pipelines :: testCommits gpu
  /\ fst res
     = if commitTest (snd (setupCombination pipelines gpu)) pipelines
       then pipelines else [].
Proof.
  intros Hne. unfold testConfiguration.
  destruct pipelines as [|p ps]; [contradiction |]. cbn [isEmpty].
  unfold bind. rewrite commitCombination_unfold. cbv zeta.
  pose proof (testCommits_setupCombination (p :: ps) gpu) as Hsetup.
  destruct (commitTest (snd (setupCombination (p :: ps) gpu)) (p :: ps)); simpl.
  - now rewrite Hsetup.
  - rewrite testCommits_discardTestOutputs. simpl. now rewrite Hsetup.
Qed.

Lemma findWorkingCombination_base commitTest pipelines connectors crtcs :
  connectors = [] \/ crtcs = [] ->
  findWorkingCombination commitTest pipelines connectors crtcs
  = testConfiguration commitTest pipelines.
Proof.
  intros [-> | ->]; [reflexivity |]. destruct connectors; reflexivity.
Qed.

(** ** Acceptance of the first working branch *)

Lemma firstWorking_app {A} (attempt : A -> M (list DrmPipeline)) (l1 l2 : list A) gpu :
  firstWorking attempt (l1 ++ l2) gpu
  = let (w, gpu') := firstWorking attempt l1 gpu in
    if negb (isEmpty w) then (w, gpu') else firstWorking attempt l2 gpu'.
Proof.
  revert gpu. induction l1 as [|x l1 IH]; intros gpu; simpl; [reflexivity |].
  unfold bind. destruct (attempt x gpu) as [w g1].
  destruct (isEmpty w) eqn:E; simpl; [apply IH |].
  unfold ret. now rewrite E.
Qed.

Lemma firstWorking_flat {A E} (attempt : A -> M (list DrmPipeline)) (l : list A) (es : list E) :
  forall gpu,
    firstWorking (fun _ => firstWorking attempt l) es gpu
    = firstWorking attempt (concat (map (fun _ => l) es)) gpu.
Proof.
  induction es as [|e es IH]; intros gpu; simpl; [reflexivity |].
  rewrite firstWorking_app. unfold bind.
  destruct (firstWorking attempt l gpu) as [w g1].
  destruct (isEmpty w); simpl; [apply IH | reflexivity].
Qed.

Lemma firstWorking_accepts_first {A} (attempt : A -> M (list DrmPipeline))
    (tried : list A) (x : A) (later : list A) :
  forall gpu gpu1,
    allFail attempt tried gpu = Some gpu1 ->
    fst (attempt x gpu1) <> [] ->
    firstWorking attempt (tried ++ x :: later) gpu = attempt x gpu1.
Proof.
  induction tried as [|y tried IH]; intros gpu gpu1 Hfail Hne; simpl in *.
  - injection Hfail as ->. now apply firstWorking_head.
  - unfold bind. destruct (attempt y gpu) as [w g']. destruct (isEmpty w); [| discriminate].
    simpl. now apply IH.
Qed.

Lemma findWorkingCombination_attempts commitTest pipelines connector connectorsLeft crtcs gpu :
  crtcs <> [] ->
  let crtcs' := crtcOrder (m_atomicModeSetting gpu) connector crtcs in
  findWorkingCombination commitTest pipelines (connector :: connectorsLeft) crtcs gpu
  = firstWorking
      (recurse (fun allPipelines crtcsLeft =>
                  findWorkingCombination commitTest allPipelines connectorsLeft crtcsLeft)
               connector crtcs' pipelines)
      (attemptOrder connector crtcs') gpu.
Proof.
  intros Hne. destruct crtcs as [|c crtcs0]; [contradiction |].
  cbn [findWorkingCombination isEmpty]. unfold bind at 1. unfold get.
  cbv zeta. unfold attemptOrder. apply firstWorking_flat.
Qed.

(** ** Pipeline objects during the search *)

Lemma grows_refl gpu : grows gpu gpu.
Proof. split; [lia | tauto]. Qed.

Lemma grows_trans g1 g2 g3 : grows g1 g2 -> grows g2 g3 -> grows g1 g3.
Proof.
  intros [H1 H2] [H3 H4]. split; [lia |]. intros a. rewrite H4. apply H2.
Qed.

Lemma growing_ret {A} (a : A) : growing (ret a).
Proof. intros gpu. apply grows_refl. Qed.

Lemma growing_get : growing get.
Proof. intros gpu. apply grows_refl. Qed.

Lemma growing_bind {A C} (c : M A) (k : A -> M C) :
  growing c -> (forall a, growing (k a)) -> growing (bind c k).
Proof.
  intros Hc Hk gpu. unfold bind. specialize (Hc gpu).
  destruct (c gpu) as [a g1]. simpl in Hc.
  eapply grows_trans; [exact Hc | apply Hk].
Qed.

Lemma growing_forEach {A} (body : A -> M unit) (l : list A) :
  (forall x, growing (body x)) -> growing (forEach body l).
Proof.
  intros Hbody. induction l as [|x l IH]; simpl.
  - apply growing_ret.
  - apply growing_bind; [apply Hbody | intros _; exact IH].
Qed.

Lemma live_alter f k gpu a :
  live (set_pipelineObjs (alter f k (pipelineObjs gpu)) gpu) a <-> live gpu a.
Proof.
  unfold live. simpl. rewrite lookup_alter. destruct (decide (k = a)) as [-> |]; [| tauto].
  apply fmap_is_Some.
Qed.

Lemma growing_emit s : growing (emit s).
Proof. intros gpu. split; [simpl; lia | tauto]. Qed.

Lemma growing_pipeline_setOutput p o : growing (pipeline_setOutput p o).
Proof. intros gpu. split; [simpl; lia | apply live_alter]. Qed.

Lemma growing_output_setPipeline o p : growing (output_setPipeline o p).
Proof. intros gpu. split; [simpl; lia | tauto]. Qed.

Lemma growing_deleteOutput o : growing (deleteOutput o).
Proof. intros gpu. split; [simpl; lia | tauto]. Qed.

Lemma growing_newOutput p : growing (newOutput p).
Proof.
  intros gpu. unfold newOutput. simpl. split; [simpl; lia |].
  intros a. unfold live. simpl. rewrite lookup_alter.
  destruct (decide (pl_addr p = a)) as [-> |]; [| tauto]. apply fmap_is_Some.
Qed.

Ltac growing_step :=
  match goal with
  | |- growing (bind _ _) => apply growing_bind; [| intros ?]
  | |- growing (ret _) => apply growing_ret
  | |- growing get => apply growing_get
  | |- growing (forEach _ _) => apply growing_forEach; intros ?
  | |- growing (emit _) => apply growing_emit
  | |- growing (pipeline_setOutput _ _) => apply growing_pipeline_setOutput
  | |- growing (output_setPipeline _ _) => apply growing_output_setPipeline
  | |- growing (deleteOutput _) => apply growing_deleteOutput
  | |- growing (newOutput _) => apply growing_newOutput
  | |- growing (match ?x with _ => _ end) => destruct x
  end.

Lemma growing_setupCombination pipelines : growing (setupCombination pipelines).
Proof. unfold setupCombination. repeat growing_step. Qed.

Lemma growing_discardTestOutputs pipelines : growing (discardTestOutputs pipelines).
Proof. unfold discardTestOutputs. repeat growing_step. Qed.

Lemma growing_commitCombination commitTest pipelines :
  growing (commitCombination commitTest pipelines).
Proof.
  intros gpu. rewrite commitCombination_unfold. cbv zeta.
  pose proof (growing_setupCombination pipelines gpu) as Hsetup.
  set (g1 := snd (setupCombination pipelines gpu)) in *.
  assert (grows gpu (set_testCommits (pipelines :: testCommits g1) g1)) as Hlog
    by (destruct Hsetup; split; [simpl; lia | assumption]).
  destruct (commitTest g1 pipelines); simpl; [exact Hlog |].
  eapply grows_trans; [exact Hlog | apply growing_discardTestOutputs].
Qed.

Lemma testConfiguration_post commitTest pipelines gpu :
  searchPost pipelines gpu (fst (testConfiguration commitTest pipelines gpu))
    (snd (testConfiguration commitTest pipelines gpu)).
Proof.
  unfold testConfiguration. destruct pipelines as [|p ps]; cbn [isEmpty].
  - split; [simpl; lia |]. left. split; [reflexivity | simpl; tauto].
  - unfold bind. pose proof (growing_commitCombination commitTest (p :: ps) gpu) as [Hn Hl].
    destruct (commitCombination commitTest (p :: ps) gpu) as [[|] g1]; simpl in *.
    + split; [exact Hn |]. right. split; [discriminate |].
      exists []. rewrite app_nil_r. split; [reflexivity |]. split.
      * intros a. rewrite Hl. split; [now left | intros [H | H]; [exact H | inversion H]].
      * intros a H. inversion H.
    + split; [exact Hn |]. left. split; [reflexivity | exact Hl].
Qed.

Lemma searchPost_fresh pipelines gpu r gpu' :
  fresh gpu -> searchPost pipelines gpu r gpu' -> fresh gpu'.
Proof.
  intros Hfresh [Hn [[_ Hl] | (_ & new & _ & Hl & Hrange)]] a Ha; apply Hl in Ha.
  - apply Hfresh in Ha. lia.
  - destruct Ha as [Ha | Ha]; [apply Hfresh in Ha; lia | apply Hrange in Ha; lia].
Qed.

Lemma searchPost_after_failure pipelines g g1 g2 r :
  searchPost pipelines g [] g1 -> searchPost pipelines g1 r g2 -> searchPost pipelines g r g2.
Proof.
  intros [Hn1 [[_ Hl1] | (Hne & _)]] [Hn2 Hpost]; [| contradiction].
  split; [lia |].
  destruct Hpost as [[-> Hl2] | (Hne & new & -> & Hl2 & Hrange)].
  - left. split; [reflexivity |]. intros a. rewrite Hl2. apply Hl1.
  - right. split; [exact Hne |]. exists new. split; [reflexivity |]. split.
    + intros a. rewrite Hl2, Hl1. tauto.
    + intros a Ha. apply Hrange in Ha. lia.
Qed.

Lemma firstWorking_searchPost {A} pipelines (attempt : A -> M (list DrmPipeline))
    (l : list A) :
  (forall x g, x ∈ l -> fresh g ->
     searchPost pipelines g (fst (attempt x g)) (snd (attempt x g))) ->
  forall g, fresh g ->
    searchPost pipelines g (fst (firstWorking attempt l g)) (snd (firstWorking attempt l g)).
Proof.
  intros Hatt. induction l as [|x l IH]; intros g Hfresh; simpl.
  - split; [lia |]. left. split; [reflexivity | tauto].
  - unfold bind.
    pose proof (Hatt x g ltac:(apply elem_of_cons; now left) Hfresh) as Hx.
    destruct (attempt x g) as [w g1]. simpl in Hx.
    destruct w as [|p w]; simpl; [| exact Hx].
    eapply searchPost_after_failure; [exact Hx |].
    apply IH.
    + intros y g' Hy. apply Hatt. now apply elem_of_cons; right.
    + eapply searchPost_fresh; eauto.
Qed.

Lemma recurse_searchPost search connector crtcs pipelines crtc gpu :
  (forall allPipelines crtcsLeft g, fresh g ->
     searchPost allPipelines g (fst (search allPipelines crtcsLeft g))
       (snd (search allPipelines crtcsLeft g))) ->
  fresh gpu ->
  searchPost pipelines gpu (fst (recurse search connector crtcs pipelines crtc gpu))
    (snd (recurse search connector crtcs pipelines crtc gpu)).
Proof.
  intros Hsearch Hfresh. unfold recurse, bind. cbn [newPipeline].
  set (addr := nextAddr gpu).
  set (pipeline := mkPipeline addr connector crtc).
  set (g1 := set_nextAddr (S addr)
               (set_pipelineObjs (<[addr := mkPipelineState None true]> (pipelineObjs gpu)) gpu)).
  assert (forall a, live g1 a <-> live gpu a \/ a = addr) as Hl1.
  { intros a. unfold live. simpl. destruct (decide (addr = a)) as [<- | Hne].
    - rewrite lookup_insert_eq. split; [now right | eauto].
    - rewrite lookup_insert_ne by exact Hne. split; [now left | intros [H | ->]; [exact H | contradiction]]. }
  assert (fresh g1) as Hfresh1.
  { intros a Ha. apply Hl1 in Ha. simpl. destruct Ha as [Ha | ->]; [apply Hfresh in Ha |]; lia. }
  specialize (Hsearch (pipelines ++ [pipeline]) (removeOne same_crtc crtc crtcs) g1 Hfresh1).
  destruct (search (pipelines ++ [pipeline]) (removeOne same_crtc crtc crtcs) g1) as [r g2].
  simpl in Hsearch. destruct Hsearch as [Hn Hpost].
  assert (nextAddr g1 = S addr) as Hn1 by reflexivity.
  destruct r as [|q r]; simpl.
  - destruct Hpost as [[_ Hl2] | (Hne & _)]; [| contradiction].
    split; [simpl; lia |]. left. split; [reflexivity |].
    intros a. unfold live at 1. simpl. destruct (decide (addr = a)) as [<- | Hne].
    + rewrite lookup_delete_eq. split; [intros [? H]; discriminate |].
      intros Ha. apply Hfresh in Ha. lia.
    + rewrite lookup_delete_ne by exact Hne. change (live g2 a <-> live gpu a).
      rewrite Hl2, Hl1. split; [intros [H | ->]; [exact H | contradiction] | now left].
  - destruct Hpost as [[Hnil _] | (Hne & new & Hr & Hl2 & Hrange)]; [discriminate |].
    split; [lia |]. right. split; [discriminate |].
    exists (pipeline :: new). split; [now rewrite Hr, <- app_assoc |]. split.
    + intros a. rewrite Hl2, Hl1. simpl. rewrite elem_of_cons. tauto.
    + intros a Ha. simpl in Ha. apply elem_of_cons in Ha as [-> | Ha]; [lia |].
      apply Hrange in Ha. lia.
Qed.

(** An empty result leaves exactly the pipeline objects that were
    there; a non-empty one adds exactly its new pipelines. *)
Lemma findWorkingCombination_post commitTest connectors :
  forall pipelines crtcs gpu,
    fresh gpu ->
    searchPost pipelines gpu
      (fst (findWorkingCombination commitTest pipelines connectors crtcs gpu))
      (snd (findWorkingCombination commitTest pipelines connectors crtcs gpu)).
Proof.
  induction connectors as [|connector connectorsLeft IH]; intros pipelines crtcs gpu Hfresh.
  - apply testConfiguration_post.
  - cbn [findWorkingCombination]. destruct (isEmpty crtcs); [apply testConfiguration_post |].
    unfold bind at 1 2. unfold get.
    apply firstWorking_searchPost; [| exact Hfresh].
    intros _ g1 _ Hfresh1.
    apply firstWorking_searchPost; [| exact Hfresh1].
    intros crtc g2 _ Hfresh2.
    apply recurse_searchPost; [| exact Hfresh2].
    intros allPipelines crtcsLeft g Hg. apply IH, Hg.
Qed.

(** C5 (as amended): a call with an empty connector list or an empty
    CRTC pool ends the recursion: with nothing accumulated it returns the
    empty set without any commit; with accumulated pipelines it hands
    them to the driver as one test commit and returns them when the
    driver accepts, the empty set when it refuses.  With connectors and
    CRTCs left, the first attempt (in encoder, then CRTC order) that comes
    back non-empty is the result, and nothing is tried after it.  Started
    on a GPU whose allocator is sound, the search leaves behind exactly
    the pipeline objects it found there plus the new pipelines of its
    result: whatever was hypothesised on an abandoned branch is deleted. *)
Theorem findWorkingCombination_first_fit (commitTest : CommitTest)
    (pipelines : list DrmPipeline) (connectors : list DrmConnector)
    (crtcs : list DrmCrtc) (gpu : DrmGpu) :
  fresh gpu ->
  let res := findWorkingCombination commitTest pipelines connectors crtcs gpu in
  (connectors = [] \/ crtcs = [] ->
   (pipelines = [] -> res = ([], gpu))
   /\ (pipelines <> [] ->
       testCommits (snd res) = pipelines :: testCommits gpu
       /\ fst res = if commitTest (snd (setupCombination pipelines gpu)) pipelines
                    then pipelines else []))
  /\ (forall connector connectorsLeft tried crtc later gpu1,
        connectors = connector :: connectorsLeft ->
        crtcs <> [] ->
        let crtcs' := crtcOrder (m_atomicModeSetting gpu) connector crtcs in
        let attempt :=
          recurse (fun allPipelines crtcsLeft =>
                     findWorkingCombination commitTest allPipelines connectorsLeft crtcsLeft)
                  connector crtcs' pipelines in
        attemptOrder connector crtcs' = tried ++ crtc :: later ->
        allFail attempt tried gpu = Some gpu1 ->
        fst (attempt crtc gpu1) <> [] ->
        res = attempt crtc gpu1)
  /\ searchPost pipelines gpu (fst res) (snd res).
Proof.
  intros Hfresh res. split; [| split].
  - intros Hbase. subst res. rewrite findWorkingCombination_base by exact Hbase. split.
    + intros ->. apply testConfiguration_nil.
    + intros Hne. now apply testConfiguration_commit.
  - intros connector connectorsLeft tried crtc later gpu1 -> Hne crtcs' attempt Horder Hfail Hwork.
    subst res. rewrite findWorkingCombination_attempts by exact Hne. cbv zeta.
    fold crtcs'. rewrite Horder. now apply firstWorking_accepts_first.
  - subst res. now apply findWorkingCombination_post.
Qed.

Lemma findWorkingCombination_first_fit_witness :
  fresh gpu_atomic
  /\ let res := findWorkingCombination rejectA1 [] [connA; connB] [crtc1; crtc2] gpu_atomic in
     searchPost [] gpu_atomic (fst res) (snd res).
Proof.
  assert (fresh gpu_atomic) as Hfresh.
  { intros a [x Hx]. simpl in Hx. rewrite lookup_empty in Hx. discriminate. }
  split; [exact Hfresh |].
  exact (proj2 (proj2 (findWorkingCombination_first_fit rejectA1 [] [connA; connB]
                         [crtc1; crtc2] gpu_atomic Hfresh))).
Defined.

(** C5, the claim as stated fails: called with no connectors and nothing
    accumulated, the search attempts no commit at all, although the
    driver would have been asked (and here would have refused). *)
Lemma empty_accumulation_not_committed :
  findWorkingCombination rejectAll [] [] [crtc1; crtc2] gpu_atomic = ([], gpu_atomic)
  /\ testCommits
       (snd (findWorkingCombination rejectAll [] [] [crtc1; crtc2] gpu_atomic)) = []
  /\ testCommits
       (snd (findWorkingCombination rejectAll [pipeV] [] [crtc1; crtc2] gpu_atomic))
     = [[pipeV]].
Proof. repeat split. Qed.

(** ** Lease requests *)

Lemma collectLeaseObjects_spec gpu conns :
  forall objects outputs,
    collectLeaseObjects gpu conns objects outputs
    = (leaseObjectsOf gpu (List.filter (eligibleForLease gpu) conns) objects,
       outputs ++ List.filter (eligibleForLease gpu) conns).
Proof.
  induction conns as [|o rest IH]; intros objects outputs; simpl.
  - now rewrite app_nil_r.
  - change (contains Nat.eqb o (m_leaseOutputs gpu)
            && negb (bool_decide (is_Some (leaseOutput_lease gpu o))))
      with (eligibleForLease gpu o).
    destruct (eligibleForLease gpu o).
    + destruct (leaseOutput_pipeline gpu o) as [p|] eqn:Ep; rewrite IH, <- app_assoc;
        unfold leaseObjectsOf; cbn [fold_left app]; rewrite Ep; reflexivity.
    + apply IH.
Qed.

Lemma forEach_setLease (l : option Lease) (outputs : list nat) :
  forall gpu,
    let gpu' := snd (forEach (fun o => leaseOutput_setLease o l) outputs gpu) in
    emitted gpu' = emitted gpu
    /\ forall o,
         leaseOutputObjs gpu' !! o
         = if bool_decide (o ∈ outputs)
           then (fun lo => mkLeaseOutputState (lo_pipeline lo) l) <$> (leaseOutputObjs gpu !! o)
           else leaseOutputObjs gpu !! o.
Proof.
  induction outputs as [|x rest IH]; intros gpu; cbn [forEach].
  - split; [reflexivity |]. intros o.
    rewrite bool_decide_eq_false_2; [reflexivity | intros H; inversion H].
  - unfold bind. cbn [leaseOutput_setLease modify].
    match goal with
    | |- context [forEach _ rest ?g] => destruct (IH g) as [Hem Hobjs]
    end.
    split; [rewrite Hem; reflexivity |].
    intros o. rewrite Hobjs. simpl. rewrite lookup_alter.
    destruct (decide (x = o)) as [-> | Hne].
    + rewrite (bool_decide_eq_true_2 (o ∈ o :: rest)) by (apply elem_of_cons; now left).
      destruct (bool_decide (o ∈ rest)); [| reflexivity].
      now destruct (leaseOutputObjs gpu !! o).
    + destruct (bool_decide (o ∈ rest)) eqn:Ein.
      * apply bool_decide_eq_true in Ein.
        rewrite bool_decide_eq_true_2; [reflexivity | apply elem_of_cons; now right].
      * apply bool_decide_eq_false in Ein.
        rewrite bool_decide_eq_false_2; [reflexivity |].
        intros H. apply elem_of_cons in H as [-> | H]; contradiction.
Qed.

Lemma eligible_not_leased gpu conns o lease :
  leaseOutput_lease gpu o = Some lease ->
  o ∉ List.filter (eligibleForLease gpu) conns.
Proof.
  intros Hlease Hin. apply list_elem_of_In, filter_In in Hin as [_ Hel].
  unfold eligibleForLease in Hel. apply andb_true_iff in Hel as [_ Hel].
  apply negb_true_iff, bool_decide_eq_false in Hel. apply Hel. rewrite Hlease. eauto.
Qed.

(** C6 (as amended): of the requested connectors, those that are not
    lease outputs of this GPU or already hold a lease are passed over; the
    hardware objects of the remaining ones are collected, in order, and
    handed to the kernel in a single [drmModeCreateLease].  When the kernel
    refuses, the request is denied and nothing but the log of outgoing
    calls changes; when it grants, the request is granted and exactly the
    collected outputs are marked leased.  Either way an output that
    already held a lease keeps it. *)
Theorem handleLeaseRequest_grant (createLeaseK : CreateLease) (request : nat)
    (conns : list nat) (gpu : DrmGpu) :
  let eligible := List.filter (eligibleForLease gpu) conns in
  let objects := leaseObjectsOf gpu eligible [] in
  let gpu' := snd (handleLeaseRequest createLeaseK request conns gpu) in
  (match createLeaseK objects with
   | None =>
       gpu' = set_emitted (leaseDenied request :: createLease objects :: emitted gpu) gpu
   | Some (fd, lesseeId) =>
       emitted gpu'
       = leaseGranted request fd lesseeId :: createLease objects :: emitted gpu
       /\ forall o,
            leaseOutputObjs gpu' !! o
            = if bool_decide (o ∈ eligible)
              then (fun lo => mkLeaseOutputState (lo_pipeline lo)
                                (Some (mkLease request conns lesseeId)))
                     <$> (leaseOutputObjs gpu !! o)
              else leaseOutputObjs gpu !! o
   end)
  /\ forall o lease,
       leaseOutput_lease gpu o = Some lease -> leaseOutput_lease gpu' o = Some lease.
Proof.
  intros eligible objects gpu'.
  assert (handleLeaseRequest createLeaseK request conns gpu
          = match createLeaseK objects with
            | None =>
                (tt, set_emitted (leaseDenied request :: createLease objects :: emitted gpu) gpu)
            | Some (fd, lesseeId) =>
                forEach (fun output =>
                           leaseOutput_setLease output
                             (Some (mkLease request conns lesseeId))) eligible
                  (set_emitted (leaseGranted request fd lesseeId
                                  :: createLease objects :: emitted gpu) gpu)
            end) as Hrun.
  { unfold handleLeaseRequest, bind, get. rewrite collectLeaseObjects_spec.
    cbn [app emit modify]. fold eligible. fold objects.
    destruct (createLeaseK objects) as [[fd lesseeId]|]; reflexivity. }
  subst gpu'. rewrite Hrun.
  destruct (createLeaseK objects) as [[fd lesseeId]|].
  - match goal with
    | |- context [forEach ?body eligible ?g] =>
        destruct (forEach_setLease (Some (mkLease request conns lesseeId)) eligible g)
          as [Hem Hobjs]
    end.
    split; [split; [exact Hem | exact Hobjs] |].
    intros o lease Hlease. unfold leaseOutput_lease in *. rewrite Hobjs.
    rewrite bool_decide_eq_false_2; [exact Hlease |].
    eapply eligible_not_leased. unfold leaseOutput_lease. exact Hlease.
  - split; [reflexivity |]. intros o lease Hlease. exact Hlease.
Qed.

(** C6, the claim as stated fails: a request naming the leased output 200
    and the unleased output 210 is not denied; the leased output is
    passed over, the kernel is asked for the objects of output 210 alone
    and the request is granted (the lease of output 200 stays as it was). *)
Lemma lease_request_with_leased_output_granted :
  let gpu' := snd (handleLeaseRequest leaseNonEmpty 301 [200; 210] gpu_twoLeaseOutputs) in
  leaseOutput_lease gpu_twoLeaseOutputs 200 = Some leaseV
  /\ emitted gpu' = [leaseGranted 301 9 8; createLease [34; 51; 61]%Z]
  /\ leaseOutput_lease gpu' 210 = Some (mkLease 301 [200; 210] 8)
  /\ leaseOutput_lease gpu' 200 = Some leaseV.
Proof. repeat split. Qed.

(** ** Rollback *)




















(** ** The state a refresh can roll back to *)






Lemma sameHolding_refl g : sameHolding g g.
Proof. repeat split. Qed.

Lemma sameHolding_trans g1 g2 g3 : sameHolding g1 g2 -> sameHolding g2 g3 -> sameHolding g1 g3.
Proof.
  intros (A1 & A2 & A3 & A4 & A5 & A6 & A7) (B1 & B2 & B3 & B4 & B5 & B6 & B7).
  do 6 (split; [congruence |]). intros o. now rewrite A7.
Qed.







(** Ending or denying leases changes no holding. *)
Section LeaseFrame.
Context {B : Type} (f : DrmGpu -> B).
Hypothesis f_setLease :
  forall o l gpu,
    f (set_leaseOutputObjs
         (alter (fun lo => mkLeaseOutputState (lo_pipeline lo) l) o (leaseOutputObjs gpu)) gpu)
    = f gpu.
Hypothesis f_emitted : forall v gpu, f (set_emitted v gpu) = f gpu.



End LeaseFrame.
















Lemma fresh_map_Forall gpu :
  map_Forall (fun a _ => a < nextAddr gpu) (pipelineObjs gpu) -> fresh gpu.
Proof. intros H a [ps Hps]. exact (H a ps Hps). Qed.


(** The start condition of the rollback holds of a GPU object as the
    constructor leaves it, and of that GPU after a first, successful
    refresh. *)
Lemma gpu_running_attached :
  outputsAttached gpu_started
  /\ fst (updateOutputs acceptAll refresh_bothPresent gpu_started) = Some true
  /\ outputsAttached gpu_running.
Proof.
  split; [| split; [vm_compute; reflexivity |]].
  - constructor.
    + apply (bool_decide_unpack _). vm_compute. exact I.
    + apply (bool_decide_unpack _). vm_compute. exact I.
    + apply (bool_decide_unpack _). vm_compute. exact I.
    + apply Forall_forall. apply (bool_decide_unpack _). vm_compute. exact I.
    + apply (bool_decide_unpack _). vm_compute. exact I.
    + apply Forall_forall. unfold live. apply (bool_decide_unpack _). vm_compute. exact I.
    + apply fresh_map_Forall. apply (bool_decide_unpack _). vm_compute. exact I.
  - constructor.
    + apply (bool_decide_unpack _). vm_compute. exact I.
    + apply (bool_decide_unpack _). vm_compute. exact I.
    + apply (bool_decide_unpack _). vm_compute. exact I.
    + apply Forall_forall. apply (bool_decide_unpack _). vm_compute. exact I.
    + apply (bool_decide_unpack _). vm_compute. exact I.
    + apply Forall_forall. unfold live. apply (bool_decide_unpack _). vm_compute. exact I.
    + apply fresh_map_Forall. apply (bool_decide_unpack _). vm_compute. exact I.
Qed.



(** A rollback after a search that made no test commit leaves the
    outputs without pipeline (the stash has set them to null), and the
    next rollback then calls [setOutput] on a null pointer. *)
Lemma rollback_leaves_null_pipelines :
  let first := updateOutputs acceptAll refresh_noEncoder gpu_twoOutputs in
  let gpu' := snd first in
  fst first = Some true
  /\ testCommits gpu' = []
  /\ map pl_addr (m_pipelines gpu') = [101; 103]
  /\ output_pipeline gpu' outA = None
  /\ output_pipeline gpu' outB = None
  /\ fst (updateOutputs acceptAll refresh_noEncoder gpu') = None.
Proof. repeat split; vm_compute; reflexivity. Qed.



(** ** The search lists have no repetition

    The hypotheses of the search properties hold of what
    [initDrmResources] and the connector scan build. *)

Lemma discoverCrtcs_NoDup atomic kcrtcs :
  forall i planes crtcs,
    NoDup (map crtc_pipeIndex crtcs) ->
    (forall c, c ∈ crtcs -> crtc_pipeIndex c < i) ->
    NoDup (map crtc_pipeIndex (discoverCrtcs atomic i kcrtcs planes crtcs)).
Proof.
  induction kcrtcs as [|[crtcId initOk] rest IH]; intros i planes crtcs Hnd Hlt; simpl.
  - exact Hnd.
  - assert (forall c, c ∈ crtcs -> crtc_pipeIndex c < S i) as Hlt'
      by (intros c Hc; apply Hlt in Hc; lia).
    destruct (atomic && negb (bool_decide (is_Some (findPrimaryPlane planes i crtcId None)))).
    + now apply IH.
    + destruct initOk; [| now apply IH].
      apply IH.
      * rewrite map_app. simpl. apply NoDup_app. split; [exact Hnd |]. split.
        -- intros k Hk Hk'. apply list_elem_of_singleton in Hk' as ->.
           apply list_elem_of_fmap in Hk as (c & Hc & Hin). apply Hlt in Hin. lia.
        -- apply NoDup_singleton.
      * intros c Hc. apply elem_of_app in Hc as [Hc | Hc]; [now apply Hlt' |].
        apply list_elem_of_singleton in Hc as ->. simpl. lia.
Qed.

Lemma DrmGpu_new_crtcs_NoDup fd monotonicCap noAms k :
  NoDup (map crtc_pipeIndex (m_crtcs (DrmGpu_new fd monotonicCap noAms k))).
Proof.
  unfold DrmGpu_new. destruct noAms; simpl; [constructor |].
  unfold initDrmResources. destruct (k_crtcs k) as [kcrtcs|].
  - simpl. apply discoverCrtcs_NoDup.
    + destruct (k_atomicCap k); [destruct (k_planeResources k) as [kp|];
        [destruct (isEmpty _) |] |]; constructor.
    + intros c Hc.
      destruct (k_atomicCap k); [destruct (k_planeResources k) as [kp|];
        [destruct (isEmpty _) |] |]; inversion Hc.
  - destruct (k_atomicCap k); [destruct (k_planeResources k) as [kp|];
      [destruct (isEmpty _) |] |]; constructor.
Qed.

Lemma crtcs_runCalls cs gpu : m_crtcs (runCalls cs gpu) = m_crtcs gpu.
Proof. apply (device_runCalls m_crtcs); reflexivity. Qed.

(** The CRTC vector of a device never holds an object twice. *)
Lemma crtcs_NoDup_for_life fd monotonicCap noAms k calls :
  NoDup (map crtc_pipeIndex (m_crtcs (runCalls calls (DrmGpu_new fd monotonicCap noAms k)))).
Proof. rewrite crtcs_runCalls. apply DrmGpu_new_crtcs_NoDup. Qed.

Lemma find_if_None {A} (p : A -> bool) (l : list A) :
  find_if p l = None -> forall x, x ∈ l -> p x = false.
Proof.
  induction l as [|y l IH]; simpl; intros H x Hx; [inversion Hx |].
  destruct (p y) eqn:E; [discriminate |].
  apply elem_of_cons in Hx as [-> | Hx]; auto.
Qed.

Lemma updateConnector_ids c' l : map conn_id (updateConnector c' l) = map conn_id l.
Proof.
  unfold updateConnector. rewrite map_map. apply map_ext. intros c.
  destruct (same_connector c' c) eqn:E; [| reflexivity].
  now apply same_connector_key in E.
Qed.

Lemma scanConnectors_NoDup probe ids :
  forall connectors removed,
    NoDup (map conn_id connectors) ->
    NoDup (map conn_id (fst (scanConnectors probe ids connectors removed))).
Proof.
  induction ids as [|id rest IH]; intros connectors removed Hnd; simpl; [exact Hnd |].
  destruct (find_if (fun c => (conn_id c =? id)%Z) connectors) as [old|] eqn:Efind.
  - apply IH. now rewrite updateConnector_ids.
  - destruct (probe id) as [c|]; [| now apply IH].
    destruct (conn_isConnected c); simpl; [| now apply IH].
    apply IH. rewrite map_app. simpl. apply NoDup_app. split; [exact Hnd |]. split.
    + intros k Hk Hk'. apply list_elem_of_singleton in Hk' as ->.
      apply list_elem_of_fmap in Hk as (c0 & Hc0 & Hin).
      pose proof (find_if_None _ _ Efind c0 Hin) as Hne. simpl in Hne.
      apply Z.eqb_neq in Hne. congruence.
    + apply NoDup_singleton.
Qed.

Lemma removeAll_NoDup {A K} (key : A -> K) (same : A -> A -> bool) (l : list A) :
  forall from, NoDup (map key from) -> NoDup (map key (removeAll same l from)).
Proof.
  induction l as [|x l IH]; intros from Hnd; simpl; [exact Hnd |].
  apply IH. now apply removeOne_NoDup.
Qed.

Lemma forEach_dropConnector removed :
  forall gpu,
    m_connectors (snd (forEach dropConnector removed gpu))
    = removeAll same_connector removed (m_connectors gpu).
Proof.
  induction removed as [|c rest IH]; intros gpu; [reflexivity |].
  cbn [forEach]. unfold bind at 1.
  assert (m_connectors (snd (dropConnector c gpu))
          = removeOne same_connector c (m_connectors gpu)) as Hdrop.
  { unfold dropConnector, bind, get.
    destruct (findOutput gpu (conn_id c)) as [o|].
    - pose proof (device_removeOutput m_connectors ltac:(reflexivity) ltac:(reflexivity)
                    ltac:(reflexivity) ltac:(reflexivity) ltac:(reflexivity)
                    ltac:(reflexivity) ltac:(reflexivity) ltac:(reflexivity)
                    ltac:(reflexivity) ltac:(reflexivity) o gpu) as H.
      destruct (removeOutput o gpu) as [[] g1]. simpl in *. now rewrite H.
    - destruct (findLeaseOutput gpu (conn_id c)) as [lo|]; [| reflexivity].
      pose proof (device_removeLeaseOutput m_connectors ltac:(reflexivity) ltac:(reflexivity)
                    ltac:(reflexivity) ltac:(reflexivity) ltac:(reflexivity)
                    ltac:(reflexivity) ltac:(reflexivity) ltac:(reflexivity)
                    ltac:(reflexivity) ltac:(reflexivity) lo gpu) as H.
      destruct (removeLeaseOutput lo gpu) as [[] g1]. simpl in *. now rewrite H. }
  destruct (dropConnector c gpu) as [[] g1]. simpl in Hdrop. rewrite IH, Hdrop. reflexivity.
Qed.

Lemma collectConnected_fst conns :
  forall connected gpu,
    fst (collectConnected conns connected gpu)
    = connected ++ List.filter conn_isConnected conns.
Proof.
  induction conns as [|c rest IH]; intros connected gpu; simpl.
  - now rewrite app_nil_r.
  - unfold bind at 1. unfold get. destruct (conn_isConnected c).
    + rewrite IH. now rewrite <- app_assoc.
    + unfold bind. destruct (match findOutput gpu (conn_id c) with _ => _ end gpu) as [[] g1].
      apply IH.
Qed.

Lemma filter_ids_NoDup (p : DrmConnector -> bool) (l : list DrmConnector) :
  NoDup (map conn_id l) -> NoDup (map conn_id (List.filter p l)).
Proof.
  induction l as [|c l IH]; simpl; intros Hnd; [constructor |].
  apply NoDup_cons in Hnd as [Hc Hl].
  destruct (p c); simpl; [| auto].
  apply NoDup_cons. split; [| auto].
  intros Hin. apply Hc. apply list_elem_of_fmap in Hin as (c0 & -> & Hc0).
  apply list_elem_of_fmap_2. apply list_elem_of_In in Hc0. apply filter_In in Hc0 as [Hc0 _].
  now apply list_elem_of_In.
Qed.

(** The connectors a refresh hands on have pairwise distinct ids, and so
    has the connector vector it leaves. *)
Lemma reconcileConnectors_NoDup k ids gpu :
  NoDup (map conn_id (m_connectors gpu)) ->
  NoDup (map conn_id (fst (reconcileConnectors k ids gpu)))
  /\ NoDup (map conn_id (m_connectors (snd (reconcileConnectors k ids gpu)))).
Proof.
  intros Hnd.
  assert (preserves m_connectors (denyStaleLeases (kr_lessees k))) as Hdeny.
  { unfold denyStaleLeases.
    repeat first
      [ apply (device_handleLeaseRevoked m_connectors); reflexivity
      | apply preserves_emit; reflexivity
      | frame_step ]. }
  specialize (Hdeny gpu).
  unfold reconcileConnectors, bind, get, modify.
  destruct (denyStaleLeases (kr_lessees k) gpu) as [[] g1]. simpl in Hdeny. rewrite Hdeny.
  pose proof (scanConnectors_NoDup (kr_probe k) ids (m_connectors gpu) (m_connectors gpu) Hnd)
    as Hscan.
  destruct (scanConnectors (kr_probe k) ids (m_connectors gpu) (m_connectors gpu))
    as [connectors removed]. simpl in Hscan.
  pose proof (forEach_dropConnector removed (set_connectors connectors g1)) as Hdrop.
  destruct (forEach dropConnector removed (set_connectors connectors g1)) as [[] g2].
  simpl in Hdrop.
  assert (NoDup (map conn_id (m_connectors g2))) as Hnd2
    by (rewrite Hdrop; now apply removeAll_NoDup).
  split.
  - rewrite collectConnected_fst. simpl. now apply filter_ids_NoDup.
  - pose proof (device_collectConnected m_connectors ltac:(reflexivity) ltac:(reflexivity)
                  ltac:(reflexivity) ltac:(reflexivity) ltac:(reflexivity)
                  ltac:(reflexivity) ltac:(reflexivity) ltac:(reflexivity)
                  ltac:(reflexivity) ltac:(reflexivity) (m_connectors g2) [] g2) as Hcc.
    simpl in Hcc. now rewrite Hcc.
Qed.

(** ** Worked examples *)

(** Two connectors, two CRTCs, a driver that accepts everything: each
    connector lands on the CRTC it hints at. *)
Example search_follows_hints :
  map (fun p => (conn_id (pl_connector p), crtc_id (pl_crtc p)))
      (fst (findWorkingCombination acceptAll [] [connA; connB'] [crtc2; crtc1] gpu_atomic))
  = [(31, 51); (32, 52)]%Z.
Proof. reflexivity. Qed.

(** In legacy mode the pool is tried in its own order. *)
Example search_legacy_keeps_order :
  map (fun p => (conn_id (pl_connector p), crtc_id (pl_crtc p)))
      (fst (findWorkingCombination acceptAll [] [connA; connB'] [crtc2; crtc1]
              (set_planes_atomic gpu_atomic [] false)))
  = [(31, 52); (32, 51)]%Z.
Proof. reflexivity. Qed.

(** A connector without encoders makes the whole search fail. *)
Example search_without_encoder :
  fst (findWorkingCombination acceptAll []
         [mkConnector 35 true [] false 0; connA] [crtc1; crtc2] gpu_atomic)
  = [].
Proof. reflexivity. Qed.

(** The connector sort puts bound connectors first and is stable. *)
Example connectors_sorted_bound_first :
  map conn_id (std_sort boundFirst [connB; connA; connV]) = [33; 31; 32]%Z.
Proof. reflexivity. Qed.

(** A refresh in which the driver accepts the first hypothesis replaces
    the pipelines of both outputs by new ones. *)
Example refresh_replaces_pipelines :
  map pl_addr (m_pipelines (snd (updateOutputs acceptAll refresh_bothPresent gpu_twoOutputs)))
  = [104; 105].
Proof. vm_compute. reflexivity. Qed.

(** Different clocks: the hardware timestamp lies 2 s before "now" on
    its own clock and is placed 2 s before "now" on the target clock. *)
Example convertTimestamp_across_clocks :
  convertTimestamp
    (fun clock => if (clock =? CLOCK_REALTIME)%Z then mkTimespec 1000 0 else mkTimespec 50 0)
    CLOCK_REALTIME CLOCK_MONOTONIC (mkTimespec 998 0)
  = (48000000000%Z, [CLOCK_REALTIME; CLOCK_MONOTONIC]).
Proof. reflexivity. Qed.
